(** * helion_wrapper: a shallow embedding of [etc/scripts/helion_wrapper.py]

    The wrapper loads a user script, collects the public Helion kernels it
    defines, binds each one to synthetic arguments and appends the Triton
    code of its default configuration to an output file.

    Everything the wrapper does not compute itself is a field of a [World]:
    the result of executing the user file, whether [helion] and [torch]
    import, what [bind], [default_config] and [to_triton_code] return or
    raise, the order in which a Python [set] hands back its elements, and
    which file operations fail.  The wrapper's own control flow (filtering,
    sorting, the two [try] blocks, the [with] block, the exit status) is
    written out as Rocq functions over that world. *)

From Stdlib Require Import String Ascii List ZArith QArith Bool Arith Lia.
From Stdlib Require Import Permutation Sorted.
Import ListNotations.

Close Scope Q_scope.
Local Open Scope string_scope.
Local Open Scope list_scope.

(** ** Python values the wrapper handles *)

(** The line feed, and the separator [out.write("\n\n")] appends. *)
Definition nl : string := String "010"%char EmptyString.
Definition nl2 : string := nl ++ nl.

(** An instance of Python's [Exception] class, the class both [except]
    clauses and [contextlib.suppress] name.  [exn_args] holds [str(m)] for
    each [m] of [error.args]; [exn_str] is [str(error)].  [SystemExit] and
    [KeyboardInterrupt] are not instances of it: a user file or a library
    call that raises one of them passes both handlers and ends the process
    with a status of its own.  Such runs are not among the runs described
    here. *)
Record Exn : Type := mkExn {
  exn_args : list string;
  exn_str : string
}.

Inductive Result (A : Type) : Type :=
| Ok (a : A)
| Raise (e : Exn).
Arguments Ok {A} a.
Arguments Raise {A} e.

(** Objects are known by their identity. *)
Definition Ref : Type := nat.

(** The placeholder arguments [_make_fake_args] can build. *)
Inductive PyVal : Type :=
| VInt (n : Z)
| VFloat (q : Q)
| VBool (b : bool)
| VNone
| VTensor (shape : list Z).

(** [param.annotation] as [inspect.signature] reports it: one of the three
    builtin types the wrapper tests with [is], [inspect.Parameter.empty]
    for a parameter without annotation, a string (a postponed annotation),
    or any other object. *)
Inductive Annotation : Type :=
| AnnInt
| AnnFloat
| AnnBool
| AnnEmpty
| AnnStr (s : string)
| AnnObj (r : Ref).

Record Param : Type := mkParam {
  p_name : string;
  p_annotation : Annotation
}.

(** ** The kernel library, seen through the calls the wrapper makes *)

Definition Config : Type := nat.

(** A bound kernel: [bound.config_spec.default_config()] and
    [bound.to_triton_code(cfg)]. *)
Record Bound : Type := mkBound {
  default_config : Result Config;
  to_triton_code : Config -> Result string
}.

(** A kernel handle.  [k_firstlineno] is [k.fn.__code__.co_firstlineno],
    [None] when reading it raises; [k_signature] is the parameter list of
    [inspect.signature(kernel.fn)]; [k_bind] is [kernel.bind]. *)
Record Kernel : Type := mkKernel {
  k_firstlineno : option Z;
  k_signature : Result (list Param);
  k_bind : list PyVal -> Result Bound
}.

Inductive PyObj : Type :=
| ObjKernel (k : Kernel)
| ObjOther.

(** What executing the user file leaves behind: the pairs
    [inspect.getmembers(mod)] lists, and the objects they refer to. *)
Record LoadedModule : Type := mkModule {
  members : list (string * Ref);
  heap : Ref -> PyObj
}.

(** ** The environment of one run *)

Record World : Type := mkWorld {
  (** [_load_module(path=...)]: the executed module, or what it raised. *)
  w_load : string -> Result LoadedModule;
  (** [import helion] and [from helion.runtime.kernel import Kernel]. *)
  w_import_helion : option Exn;
  (** Whether [import torch] succeeds inside [_make_fake_args]. *)
  w_torch_ok : bool;
  (** [torch.empty([1])] for parameter [i] of kernel [r]: the exception it
      raises, if any. *)
  w_torch_empty : Ref -> nat -> option Exn;
  (** The order in which iterating [set(l)] yields the elements of [l]. *)
  w_set_iter : list Ref -> list Ref;
  (** The output path before the run: its content, when it exists. *)
  w_out_before : option string;
  (** [open(path, "w", encoding="utf-8")]: the exception it raises, if any. *)
  w_open_err : string -> option Exn;
  (** The [n]-th call of [out.write] (counted from 0): its exception, if any. *)
  w_write_err : nat -> option Exn;
  (** Closing the file when the [with] block is left. *)
  w_close_err : option Exn;
  (** [sys.stderr.writelines]: [Some n] when it raises after [n] lines. *)
  w_stderr_fail : option nat
}.

(** What Python promises about a [set]: each element once, nothing else. *)
Definition set_semantics (w : World) : Prop :=
  forall l, NoDup (w_set_iter w l) /\ (forall x, In x (w_set_iter w l) <-> In x l).

(** ** Observable state *)

(** Calls into the collaborators, in the order they are made. *)
Inductive Event : Type :=
| EvLoad (path : string)
| EvImportHelion
| EvOpen (path : string)
| EvBind (r : Ref) (args : list PyVal).

Record State : Type := mkState {
  st_out : option string;   (* content of the output file, if it exists *)
  st_err : string;          (* what reached the error stream *)
  st_nwrites : nat;         (* calls of [out.write] so far *)
  st_log : list Event
}.

Definition initial_state (w : World) : State :=
  mkState (w_out_before w) "" 0 [].

Definition add_event (ev : Event) (st : State) : State :=
  mkState (st_out st) (st_err st) (st_nwrites st) (st_log st ++ [ev]).

Definition set_out (c : option string) (st : State) : State :=
  mkState c (st_err st) (st_nwrites st) (st_log st).

(** ** A state monad with exceptions *)

Definition M (A : Type) : Type := State -> Result A * State.

Definition ret {A} (a : A) : M A := fun st => (Ok a, st).

Definition bind {A B} (m : M A) (f : A -> M B) : M B :=
  fun st =>
    match m st with
    | (Ok a, st1) => f a st1
    | (Raise e, st1) => (Raise e, st1)
    end.

Definition lift {A} (r : Result A) : M A := fun st => (r, st).

Definition log (ev : Event) : M unit := fun st => (Ok tt, add_event ev st).

Notation "x <- m ;; f" := (bind m (fun x => f))
  (at level 61, m at next level, right associativity).
Notation "m ;;; f" := (bind m (fun _ => f))
  (at level 61, right associativity).

(** ** Command line: the parser [main] builds

    [argparse.ArgumentParser] with the two options
    [add_argument("--inputfile", required=True)] and
    [add_argument("--outputfile", required=True)], and the [-h]/[--help]
    option every parser gets.  The model follows argparse on the option
    syntax it documents: [--opt value], [--opt=value], and unambiguous
    abbreviations of a long option ([--in], [--out]).  A token that names no
    option is set aside and reported once the required options are there.
    A value that begins with a dash is refused; argparse lets a lone dash
    and a negative number through, and reads no option after a bare
    [--]; no statement below relies on such command lines. *)

Record Args : Type := mkArgs {
  inputfile : string;
  outputfile : string
}.

Inductive ParseResult : Type :=
| Parsed (a : Args)
| ParseExit (status : Z) (err : string).

Definition opt_inputfile : string := "--inputfile".
Definition opt_outputfile : string := "--outputfile".
Definition opt_help : string := "--help".

(** [tok] selects the long option [o]: [o] itself, or the two dashes and at
    least one more character of it. *)
Definition names_option (o tok : string) : bool :=
  String.prefix tok o && Nat.ltb 2 (String.length tok).

(** The characters of [s] are all [h]. *)
Fixpoint all_h (s : string) : bool :=
  match s with
  | EmptyString => true
  | String c rest => Ascii.eqb c "h"%char && all_h rest
  end.

(** [tok] asks for help: [-h], the flag repeated in one token ([-hh]), or
    [--help] and its abbreviations. *)
Definition is_help (tok : string) : bool :=
  match tok with
  | String "-" (String "h" rest) => all_h rest
  | _ => false
  end || names_option opt_help tok.

(** [tok.split("=", 1)]: the option part, and the explicit value if any. *)
Fixpoint split_eq (tok : string) : string * option string :=
  match tok with
  | EmptyString => (EmptyString, None)
  | String c rest =>
      if Ascii.eqb c "="%char then (EmptyString, Some rest)
      else let (name, v) := split_eq rest in (String c name, v)
  end.

Definition starts_dash (tok : string) : bool := String.prefix "-" tok.

Inductive ParseOutcome : Type :=
| PHelp
| PError (msg : string)
| PDone (inp outp : option string) (extras : list string).

Definition expected_one (o : string) : string :=
  "argument " ++ o ++ ": expected one argument".

Fixpoint parse_known (toks : list string) (inp outp : option string)
         (extras : list string) : ParseOutcome :=
  match toks with
  | [] => PDone inp outp (rev extras)
  | t :: rest =>
      if is_help t then PHelp
      else
        let (name, explicit) := split_eq t in
        if names_option opt_inputfile name then
          match explicit with
          | Some v => parse_known rest (Some v) outp extras
          | None =>
              match rest with
              | v :: rest' =>
                  if starts_dash v then PError (expected_one opt_inputfile)
                  else parse_known rest' (Some v) outp extras
              | [] => PError (expected_one opt_inputfile)
              end
          end
        else if names_option opt_outputfile name then
          match explicit with
          | Some v => parse_known rest inp (Some v) extras
          | None =>
              match rest with
              | v :: rest' =>
                  if starts_dash v then PError (expected_one opt_outputfile)
                  else parse_known rest' inp (Some v) extras
              | [] => PError (expected_one opt_outputfile)
              end
          end
        else parse_known rest inp outp (t :: extras)
  end.

Fixpoint join (sep : string) (l : list string) : string :=
  match l with
  | [] => ""
  | [x] => x
  | x :: l' => x ++ sep ++ join sep l'
  end.

Definition usage (prog : string) : string :=
  "usage: " ++ prog ++ " [-h] --inputfile INPUTFILE --outputfile OUTPUTFILE" ++ nl.

(** [parser.error(msg)]: the usage line and the message on the error
    stream, then exit status 2. *)
Definition parser_error (prog msg : string) : ParseResult :=
  ParseExit 2 (usage prog ++ prog ++ ": error: " ++ msg ++ nl).

Definition missing_required (inp outp : option string) : list string :=
  (match inp with None => [opt_inputfile] | Some _ => [] end) ++
  (match outp with None => [opt_outputfile] | Some _ => [] end).

(** [parser.parse_args()] on the tokens after the program name. *)
Definition parse_args (prog : string) (argv : list string) : ParseResult :=
  match parse_known argv None None [] with
  | PHelp => ParseExit 0 ""            (* the help text goes to stdout *)
  | PError msg => parser_error prog msg
  | PDone (Some i) (Some o) [] => Parsed (mkArgs i o)
  | PDone (Some i) (Some o) extras =>
      parser_error prog ("unrecognized arguments: " ++ join " " extras)
  | PDone inp outp _ =>
      parser_error prog
        ("the following arguments are required: " ++
         join ", " (missing_required inp outp))
  end.

(** The command line gives option [o] somewhere. *)
Definition supplies (o : string) (argv : list string) : bool :=
  existsb (fun t => names_option o (fst (split_eq t))) argv.

(** ** [_load_module] *)

(** [spec_from_file_location], the [assert], [module_from_spec] and
    [exec_module]: whatever one of them raises is what [w_load] raises. *)
Definition _load_module (w : World) (path : string) : M LoadedModule :=
  log (EvLoad path) ;;; lift (w_load w path).

(** ** [_make_fake_args] *)

(** One iteration of the loop over [sig.parameters.values()]: the three
    [is] tests, [torch.empty([1])] otherwise, [None] when that raises. *)
Definition fake_arg (w : World) (r : Ref) (i : nat) (p : Param) : PyVal :=
  match p_annotation p with
  | AnnInt => VInt 1
  | AnnFloat => VFloat (1 # 1)
  | AnnBool => VBool false
  | _ =>
      match w_torch_empty w r i with
      | None => VTensor [1%Z]
      | Some _ => VNone
      end
  end.

Fixpoint fake_args_from (w : World) (r : Ref) (i : nat) (ps : list Param)
  : list PyVal :=
  match ps with
  | [] => []
  | p :: ps' => fake_arg w r i p :: fake_args_from w r (S i) ps'
  end.

Definition _make_fake_args (w : World) (r : Ref) (k : Kernel)
  : Result (list PyVal) :=
  if w_torch_ok w then
    match k_signature k with
    | Ok ps => Ok (fake_args_from w r 0 ps)
    | Raise e => Raise e
    end
  else Ok [].

(** ** Discovery and ordering *)

Definition is_kernel (m : LoadedModule) (r : Ref) : bool :=
  match heap m r with
  | ObjKernel _ => true
  | ObjOther => false
  end.

(** [not name.startswith("_")] *)
Definition is_public (name : string) : bool := negb (String.prefix "_" name).

(** The list comprehension over [inspect.getmembers(mod)]. *)
Definition collect_kernels (m : LoadedModule) : list Ref :=
  map snd (filter (fun p => is_public (fst p) && is_kernel m (snd p)) (members m)).

(** [_line_no]: the first line of the kernel's function, 0 when reading it
    raises. *)
Definition _line_no (m : LoadedModule) (r : Ref) : Z :=
  match heap m r with
  | ObjKernel k =>
      match k_firstlineno k with
      | Some n => n
      | None => 0%Z
      end
  | ObjOther => 0%Z
  end.

(** [sorted(l, key=key)]: ascending and stable, as Python's sort is. *)
Fixpoint insert_by {A} (key : A -> Z) (x : A) (l : list A) : list A :=
  match l with
  | [] => [x]
  | y :: l' => if (key x <=? key y)%Z then x :: l else y :: insert_by key x l'
  end.

Definition sorted {A} (key : A -> Z) (l : list A) : list A :=
  fold_right (insert_by key) [] l.

(** [kernels = sorted(set(kernels), key=_line_no)] *)
Definition sorted_kernels (w : World) (m : LoadedModule) : list Ref :=
  sorted (_line_no m) (w_set_iter w (collect_kernels m)).

(** ** The per-kernel loop *)

Definition attribute_error : Exn := mkExn ["no such attribute"] "no such attribute".

Definition as_kernel (o : PyObj) : Result Kernel :=
  match o with
  | ObjKernel k => Ok k
  | ObjOther => Raise attribute_error
  end.

(** The body of the inner [try]: argument synthesis, [bind], the default
    configuration, code generation. *)
Definition per_kernel (w : World) (m : LoadedModule) (r : Ref) : M string :=
  k <- lift (as_kernel (heap m r)) ;;
  args <- lift (_make_fake_args w r k) ;;
  log (EvBind r args) ;;;
  bound <- lift (k_bind k args) ;;
  cfg <- lift (default_config bound) ;;
  lift (to_triton_code bound cfg).

(** The same sequence without the call log. *)
Definition kernel_code (w : World) (m : LoadedModule) (r : Ref) : Result string :=
  match as_kernel (heap m r) with
  | Raise e => Raise e
  | Ok k =>
      match _make_fake_args w r k with
      | Raise e => Raise e
      | Ok args =>
          match k_bind k args with
          | Raise e => Raise e
          | Ok bound =>
              match default_config bound with
              | Raise e => Raise e
              | Ok cfg => to_triton_code bound cfg
              end
          end
      end
  end.

(** The state after [s] has been appended to the output file. *)
Definition wrote (s : string) (st : State) : State :=
  mkState (option_map (fun c => (c ++ s)%string) (st_out st)) (st_err st)
          (S (st_nwrites st)) (st_log st).

(** [out.write(s)].  The file is taken as unbuffered: a write that
    succeeds is in the file, one that fails leaves it as it was.  The
    real file object keeps a buffer, so that an error of the device can
    show at a later write or at the close; what is said of the content of
    the file is meant for runs in which writes and close succeed. *)
Definition out_write (w : World) (s : string) : M unit :=
  fun st =>
    match w_write_err w (st_nwrites st) with
    | Some e => (Raise e, st)
    | None => (Ok tt, wrote s st)
    end.

(** [for kernel in kernels: try: ... except Exception: continue; write; write] *)
Fixpoint emit_kernels (w : World) (m : LoadedModule) (ks : list Ref) : M unit :=
  match ks with
  | [] => ret tt
  | r :: ks' =>
      fun st =>
        match per_kernel w m r st with
        | (Raise _, st1) => emit_kernels w m ks' st1
        | (Ok triton_code, st1) =>
            (out_write w triton_code ;;;
             out_write w nl2 ;;;
             emit_kernels w m ks') st1
        end
  end.

(** [with open(path, "w", encoding="utf-8") as out: body].  Opening
    truncates the file; leaving the block closes it, also when the body
    raised, and an exception of the close replaces the body's.  As for
    [out_write], the content kept here after a failing close is that of
    an unbuffered file; the real one may have lost what was written. *)
Definition with_open (w : World) (path : string) (body : M unit) : M unit :=
  fun st =>
    let st0 := add_event (EvOpen path) st in
    match w_open_err w path with
    | Some e => (Raise e, st0)
    | None =>
        match body (set_out (Some "") st0) with
        | (Ok tt, st1) =>
            match w_close_err w with
            | None => (Ok tt, st1)
            | Some e => (Raise e, st1)
            end
        | (Raise e, st1) =>
            match w_close_err w with
            | None => (Raise e, st1)
            | Some e' => (Raise e', st1)
            end
        end
    end.

(** ** [main] *)

Definition import_helion (w : World) : M unit :=
  log EvImportHelion ;;;
  match w_import_helion w with
  | None => ret tt
  | Some e => lift (Raise e)
  end.

(** The body of the outer [try]. *)
Definition main_try (w : World) (a : Args) : M unit :=
  m <- _load_module w (inputfile a) ;;
  import_helion w ;;;
  with_open w (outputfile a) (emit_kernels w m (sorted_kernels w m)).

(** [getattr(error, "args", None) or [str(error)]] *)
Definition messages (e : Exn) : list string :=
  match exn_args e with
  | [] => [exn_str e]
  | a => a
  end.

(** [[str(m) + "\n" for m in messages]] *)
Definition stderr_lines (e : Exn) : list string :=
  map (fun m => (m ++ nl)%string) (messages e).

(** What a sequence of strings written one after the other amounts to. *)
Definition concat_all (l : list string) : string :=
  fold_right String.append "" l.

(** [with contextlib.suppress(Exception): sys.stderr.writelines(...)] *)
Definition report (w : World) (e : Exn) (st : State) : State :=
  let written :=
    match w_stderr_fail w with
    | None => stderr_lines e
    | Some n => firstn n (stderr_lines e)
    end in
  mkState (st_out st) (st_err st ++ concat_all written)
          (st_nwrites st) (st_log st).

Record Outcome : Type := mkOutcome {
  exit_status : Z;
  final : State
}.

Definition out_file (o : Outcome) : option string := st_out (final o).
Definition err_stream (o : Outcome) : string := st_err (final o).
Definition calls (o : Outcome) : list Event := st_log (final o).

(** One run of the script: [prog] is [sys.argv[0]], [argv] the rest.
    [exit_status] is the status the script ends with: 0 when [main]
    returns, the argument of [sys.exit] in the handler and in the
    parser. *)
Definition main (w : World) (prog : string) (argv : list string) : Outcome :=
  match parse_args prog argv with
  | ParseExit status err =>
      mkOutcome status (mkState (w_out_before w) err 0 [])
  | Parsed a =>
      match main_try w a (initial_state w) with
      | (Ok _, st) => mkOutcome 0 st
      | (Raise e, st) => mkOutcome 255 (report w e st)
      end
  end.

(** ** The end of the process

    [main] returns, or ends with [sys.exit(255)]: [exit_status] is the
    status [main] hands to the interpreter.  The interpreter then shuts
    down and flushes the standard streams.  The lines the handler gave
    to [sys.stderr] and the stream did not take are still in its buffer
    then, and when the flush fails on them the interpreter replaces the
    status it was handed by 120. *)

(** The lines of the handler's report that the error stream did not take. *)
Definition pending_lines (w : World) (e : Exn) : list string :=
  match w_stderr_fail w with
  | None => []
  | Some n => skipn n (stderr_lines e)
  end.

(** The exit status of the process, for an accepted command line.
    [flush_fails] tells whether the error stream still refuses what is in
    its buffer when the interpreter shuts down. *)
Definition process_status (w : World) (flush_fails : bool) (a : Args) : Z :=
  match main_try w a (initial_state w) with
  | (Ok _, _) => 0%Z
  | (Raise e, _) =>
      match pending_lines w e with
      | [] => 255%Z
      | _ :: _ => if flush_fails then 120%Z else 255%Z
      end
  end.

(** ** Sample worlds

    Small concrete runs, used to exercise the definitions and to
    instantiate the theorems below. *)

(** Two iteration orders a [set] may have. *)
Definition set_in_order (l : list Ref) : list Ref := nodup Nat.eq_dec l.
Definition set_reversed (l : list Ref) : list Ref := rev (nodup Nat.eq_dec l).

Definition bound_of (code : string) : Bound :=
  mkBound (Ok 0) (fun _ => Ok code).

Definition bind_error : Exn := mkExn ["cannot bind"] "cannot bind".

(** A kernel whose [bind] accepts any arguments. *)
Definition easy_kernel (line : option Z) (ps : list Param) (code : string) : Kernel :=
  mkKernel line (Ok ps) (fun _ => Ok (bound_of code)).

(** A kernel whose [bind] wants one argument per parameter. *)
Definition strict_kernel (line : option Z) (ps : list Param) (code : string) : Kernel :=
  mkKernel line (Ok ps)
    (fun args =>
       if Nat.eqb (List.length args) (List.length ps) then Ok (bound_of code)
       else Raise bind_error).

(** A kernel whose [bind] always raises. *)
Definition broken_kernel (line : option Z) : Kernel :=
  mkKernel line (Ok []) (fun _ => Raise bind_error).

Definition tensor_param (name : string) : Param := mkParam name (AnnObj 100).

(** A signature with an [int], a [float], a [bool] and an untyped parameter. *)
Definition mixed_params : list Param :=
  [mkParam "n" AnnInt; mkParam "scale" AnnFloat; mkParam "flag" AnnBool;
   mkParam "x" AnnEmpty].

(** A module with four public names (two kernels that bind, declared on
    lines 6 and 3, one that does not, declared on line 4, and a plain
    object) and a private name bound to a fourth kernel. *)
Definition demo_heap (r : Ref) : PyObj :=
  match r with
  | 1 => ObjKernel (strict_kernel (Some 6%Z) [tensor_param "x"; tensor_param "y"] "ADD")
  | 2 => ObjKernel (strict_kernel (Some 3%Z) [tensor_param "x"] "MUL")
  | 3 => ObjKernel (easy_kernel (Some 1%Z) [] "HIDDEN")
  | 4 => ObjKernel (broken_kernel (Some 4%Z))
  | _ => ObjOther
  end.

Definition demo_module : LoadedModule :=
  mkModule [("_hidden", 3); ("add", 1); ("bad", 4); ("helper", 9); ("mul", 2)]
           demo_heap.

Definition no_such_file : Exn :=
  mkExn ["2"; "No such file or directory"] "[Errno 2] No such file or directory".

Definition demo_load (m : LoadedModule) (path : string) : Result LoadedModule :=
  if String.eqb path "in.py" then Ok m else Raise no_such_file.

(** A world in which nothing of the environment fails. *)
Definition calm_world (m : LoadedModule) (set_iter : list Ref -> list Ref) : World :=
  mkWorld (demo_load m) None true (fun _ _ => None) set_iter None
          (fun _ => None) (fun _ => None) None None.

Definition demo_world : World := calm_world demo_module set_in_order.

Definition demo_argv : list string := ["--inputfile"; "in.py"; "--outputfile"; "out.txt"].

(** A module with two public kernels whose functions start on the same
    line (say, one of them imported from another file). *)
Definition tie_heap (r : Ref) : PyObj :=
  match r with
  | 1 => ObjKernel (easy_kernel (Some 6%Z) [tensor_param "x"] "A")
  | 2 => ObjKernel (easy_kernel (Some 6%Z) [tensor_param "x"] "B")
  | _ => ObjOther
  end.

Definition tie_module : LoadedModule :=
  mkModule [("a", 1); ("b", 2)] tie_heap.

(** A module whose only kernel cannot be bound. *)
Definition broken_heap (r : Ref) : PyObj :=
  match r with
  | 1 => ObjKernel (broken_kernel (Some 4%Z))
  | _ => ObjOther
  end.

Definition broken_module : LoadedModule := mkModule [("k", 1)] broken_heap.

Definition no_torch : Exn :=
  mkExn ["No module named 'torch'"] "No module named 'torch'".

(** [calm_world] without [torch]: it cannot be imported, and neither can
    the kernel library, which needs it. *)
Definition torch_missing_world (m : LoadedModule) : World :=
  mkWorld (demo_load m) (Some no_torch) false (fun _ _ => None) set_in_order None
          (fun _ => None) (fun _ => None) None None.

(** [calm_world] with an error stream that takes nothing. *)
Definition refusing_stderr_world (m : LoadedModule) : World :=
  mkWorld (demo_load m) None true (fun _ _ => None) set_in_order None
          (fun _ => None) (fun _ => None) None (Some 0).

Definition disk_full : Exn :=
  mkExn ["28"; "No space left on device"] "[Errno 28] No space left on device".

(** [calm_world] in which the [n]-th write to the output file fails. *)
Definition failing_write_world (m : LoadedModule) (n : nat) : World :=
  mkWorld (demo_load m) None true (fun _ _ => None) set_in_order None
          (fun _ => None) (fun i => if Nat.eqb i n then Some disk_full else None)
          None None.

(** ** Notions the statements below use *)

(** The code of the kernels of [ks] whose per-kernel sequence succeeds, in
    the order of [ks]. *)
Definition generated (w : World) (m : LoadedModule) (ks : list Ref) : list string :=
  flat_map (fun r => match kernel_code w m r with
                     | Ok code => [code]
                     | Raise _ => []
                     end) ks.

(** Text blocks, each followed by two line feeds, and nothing else. *)
Definition blocks_text (codes : list string) : string :=
  concat_all (map (fun c => (c ++ nl2)%string) codes).

(** Ascending order of the sort keys. *)
Definition key_le {A} (key : A -> Z) (a b : A) : Prop := (key a <= key b)%Z.

(** Two states that differ at most in the call log. *)
Definition same_files (s s' : State) : Prop :=
  st_out s = st_out s' /\ st_err s = st_err s' /\ st_nwrites s = st_nwrites s'.

(** The module with its underscore-prefixed names removed. *)
Definition strip_private (m : LoadedModule) : LoadedModule :=
  mkModule (filter (fun p => is_public (fst p)) (members m)) (heap m).

Definition map_result {A B} (f : A -> B) (r : Result A) : Result B :=
  match r with
  | Ok a => Ok (f a)
  | Raise e => Raise e
  end.

(** The world in which every loaded module has lost its private names. *)
Definition hide_private (w : World) : World :=
  mkWorld (fun path => map_result strip_private (w_load w path))
          (w_import_helion w) (w_torch_ok w) (w_torch_empty w) (w_set_iter w)
          (w_out_before w) (w_open_err w) (w_write_err w) (w_close_err w)
          (w_stderr_fail w).

(** The same world with another iteration order for sets. *)
Definition with_set_iter (w : World) (f : list Ref -> list Ref) : World :=
  mkWorld (w_load w) (w_import_helion w) (w_torch_ok w) (w_torch_empty w) f
          (w_out_before w) (w_open_err w) (w_write_err w) (w_close_err w)
          (w_stderr_fail w).

(** The state in which the [with] block is entered. *)
Definition opened_state (w : World) (a : Args) : State :=
  set_out (Some "")
    (add_event (EvOpen (outputfile a))
       (add_event EvImportHelion
          (add_event (EvLoad (inputfile a)) (initial_state w)))).

(** The calls of [bind] one full pass of the loop over [ks] makes: one per
    kernel whose argument synthesis succeeds, with the synthesized
    arguments. *)
Definition bind_events (w : World) (m : LoadedModule) (ks : list Ref) : list Event :=
  flat_map (fun r => match heap m r with
                     | ObjKernel k =>
                         match _make_fake_args w r k with
                         | Ok args => [EvBind r args]
                         | Raise _ => []
                         end
                     | ObjOther => []
                     end) ks.

(** "Torch is required by Helion", as the comment in [_make_fake_args]
    has it: where [torch] cannot be imported, [import helion] raises. *)
Definition helion_needs_torch (w : World) : Prop :=
  w_torch_ok w = false -> exists e, w_import_helion w = Some e.

(** The same world, in which every path loads as the module [m]. *)
Definition with_module (w : World) (m : LoadedModule) : World :=
  mkWorld (fun _ => Ok m)
          (w_import_helion w) (w_torch_ok w) (w_torch_empty w) (w_set_iter w)
          (w_out_before w) (w_open_err w) (w_write_err w) (w_close_err w)
          (w_stderr_fail w).

(** The sample module with its names changed and in another order, the
    kernel [add] under a second public name, and another plain object. *)
Definition renamed_module : LoadedModule :=
  mkModule [("zeta", 2); ("_hidden", 3); ("plus", 1); ("broken", 4);
            ("also_plus", 1); ("thing", 12)]
           demo_heap.

(** ** [examples/helion/default.py]

    The module the example file leaves behind: the names every module
    has, the three imports [torch], [helion] and [hl], and the kernel
    [add], a function of two parameters annotated [torch.Tensor] whose
    decorator stands on line 6.  What binding it and generating its code
    give is the library's business: [lib] stands for [add.bind]. *)
Definition tensor_class : Ref := 20.

Definition default_add (lib : list PyVal -> Result Bound) : Kernel :=
  mkKernel (Some 6%Z)
           (Ok [mkParam "x" (AnnObj tensor_class); mkParam "y" (AnnObj tensor_class)])
           lib.

Definition default_example (lib : list PyVal -> Result Bound) : LoadedModule :=
  mkModule [("__builtins__", 10); ("__cached__", 11); ("__doc__", 12);
            ("__file__", 13); ("__loader__", 14); ("__name__", 15);
            ("__package__", 16); ("__spec__", 17);
            ("add", 1); ("helion", 2); ("hl", 3); ("torch", 4)]
           (fun r => match r with
                     | 1 => ObjKernel (default_add lib)
                     | _ => ObjOther
                     end).

(** What the library makes of [add] bound to two one-element tensors. *)
Definition default_add_code (lib : list PyVal -> Result Bound) : Result string :=
  match lib [VTensor [1%Z]; VTensor [1%Z]] with
  | Raise e => Raise e
  | Ok bound =>
      match default_config bound with
      | Raise e => Raise e
      | Ok cfg => to_triton_code bound cfg
      end
  end.

(** * Properties *)

(** ** Strings *)

Lemma append_assoc (a b c : string) : ((a ++ b) ++ c = a ++ (b ++ c))%string.
Proof.
  induction a as [|ch a IH]; simpl.
  - reflexivity.
  - now rewrite IH.
Qed.

Lemma append_empty_r (a : string) : (a ++ "" = a)%string.
Proof.
  induction a as [|ch a IH]; simpl; [reflexivity | now rewrite IH].
Qed.

Lemma blocks_text_cons (c : string) (cs : list string) :
  blocks_text (c :: cs) = ((c ++ nl2) ++ blocks_text cs)%string.
Proof. reflexivity. Qed.

(** ** [sorted] *)

Section Sorting.
Context {A : Type} (key : A -> Z).

Lemma insert_by_perm (x : A) (l : list A) :
  Permutation (insert_by key x l) (x :: l).
Proof.
  induction l as [|y l IH]; simpl.
  - apply Permutation_refl.
  - destruct (key x <=? key y)%Z.
    + apply Permutation_refl.
    + eapply perm_trans; [apply perm_skip, IH | apply perm_swap].
Qed.

Lemma sorted_perm (l : list A) : Permutation (sorted key l) l.
Proof.
  induction l as [|x l IH]; simpl.
  - apply perm_nil.
  - eapply perm_trans; [apply insert_by_perm | now apply perm_skip].
Qed.

Lemma insert_by_sorted (x : A) (l : list A) :
  StronglySorted (key_le key) l -> StronglySorted (key_le key) (insert_by key x l).
Proof.
  induction l as [|y l IH]; simpl; intros Hs.
  - constructor; [constructor | constructor].
  - inversion Hs as [|? ? Hl Hy]; subst.
    destruct (key x <=? key y)%Z eqn:E.
    + apply Z.leb_le in E. constructor; [exact Hs|].
      constructor; [exact E|].
      eapply Forall_impl; [|exact Hy].
      intros b Hb. unfold key_le in *. lia.
    + apply Z.leb_gt in E. constructor; [now apply IH|].
      eapply Permutation_Forall.
      * apply Permutation_sym, insert_by_perm.
      * constructor; [unfold key_le; lia | exact Hy].
Qed.

Lemma sorted_sorted (l : list A) : StronglySorted (key_le key) (sorted key l).
Proof.
  induction l as [|x l IH]; simpl.
  - constructor.
  - now apply insert_by_sorted.
Qed.

Lemma sorted_In (l : list A) (x : A) : In x (sorted key l) <-> In x l.
Proof.
  split; apply Permutation_in;
    [apply sorted_perm | apply Permutation_sym, sorted_perm].
Qed.

Lemma sorted_NoDup (l : list A) : NoDup l -> NoDup (sorted key l).
Proof.
  apply Permutation_NoDup, Permutation_sym, sorted_perm.
Qed.

(** Two ascending lists with the same elements, on which the key is
    injective, are the same list. *)
Lemma ascending_unique (l1 l2 : list A) :
  (forall x y, In x l1 -> In y l1 -> key x = key y -> x = y) ->
  NoDup l1 -> NoDup l2 ->
  (forall x, In x l1 <-> In x l2) ->
  StronglySorted (key_le key) l1 -> StronglySorted (key_le key) l2 ->
  l1 = l2.
Proof.
  revert l2.
  induction l1 as [|a l1 IH]; intros l2 Hinj Hn1 Hn2 Hin Hs1 Hs2.
  - destruct l2 as [|b l2]; [reflexivity|].
    exfalso. apply (proj2 (Hin b)). now left.
  - destruct l2 as [|b l2].
    + exfalso. apply (proj1 (Hin a)). now left.
    + inversion Hs1 as [|? ? Hs1' Ha]; subst.
      inversion Hs2 as [|? ? Hs2' Hb]; subst.
      inversion Hn1 as [|? ? Hna Hn1']; subst.
      inversion Hn2 as [|? ? Hnb Hn2']; subst.
      rewrite Forall_forall in Ha, Hb.
      assert (Hab : a = b).
      { destruct (proj1 (Hin a) (or_introl eq_refl)) as [E|Hal2]; [now symmetry|].
        destruct (proj2 (Hin b) (or_introl eq_refl)) as [E|Hbl1]; [exact E|].
        apply Hinj; [now left | now right |].
        specialize (Ha _ Hbl1). specialize (Hb _ Hal2).
        unfold key_le in *. lia. }
      subst b. f_equal.
      apply IH; try assumption.
      * intros x y Hx Hy. apply Hinj; now right.
      * intros x. split; intros Hx.
        -- destruct (proj1 (Hin x) (or_intror Hx)) as [E|H']; [|exact H'].
           subst x. contradiction.
        -- destruct (proj2 (Hin x) (or_intror Hx)) as [E|H']; [|exact H'].
           subst x. contradiction.
Qed.
End Sorting.

(** ** The per-kernel sequence *)

Lemma same_files_refl (s : State) : same_files s s.
Proof. now repeat split. Qed.

Lemma same_files_trans (s1 s2 s3 : State) :
  same_files s1 s2 -> same_files s2 s3 -> same_files s1 s3.
Proof.
  unfold same_files. intros (A1 & B1 & C1) (A2 & B2 & C2).
  repeat split; congruence.
Qed.

Lemma same_files_sym (s1 s2 : State) : same_files s1 s2 -> same_files s2 s1.
Proof. unfold same_files. intros (A & B & C). repeat split; congruence. Qed.

Lemma per_kernel_result (w : World) (m : LoadedModule) (r : Ref) (st : State) :
  fst (per_kernel w m r st) = kernel_code w m r.
Proof.
  unfold per_kernel, kernel_code, bind, lift, log.
  destruct (as_kernel (heap m r)) as [k|e]; [|reflexivity].
  destruct (_make_fake_args w r k) as [args|e]; [|reflexivity].
  destruct (k_bind k args) as [b|e]; [|reflexivity].
  destruct (default_config b) as [cfg|e]; reflexivity.
Qed.

(** The sequence leaves a trace in the call log at most: one [bind]. *)
Lemma per_kernel_log (w : World) (m : LoadedModule) (r : Ref) (st : State) :
  snd (per_kernel w m r st) = st \/
  exists args, snd (per_kernel w m r st) = add_event (EvBind r args) st.
Proof.
  unfold per_kernel, bind, lift, log.
  destruct (as_kernel (heap m r)) as [k|e]; [|now left].
  destruct (_make_fake_args w r k) as [args|e]; [|now left].
  right. exists args.
  destruct (k_bind k args) as [b|e]; [|reflexivity].
  destruct (default_config b) as [cfg|e]; reflexivity.
Qed.

Lemma per_kernel_log_ok (w : World) (m : LoadedModule) (r : Ref) (st : State)
      (code : string) :
  kernel_code w m r = Ok code ->
  exists args, snd (per_kernel w m r st) = add_event (EvBind r args) st.
Proof.
  unfold per_kernel, kernel_code, bind, lift, log.
  destruct (as_kernel (heap m r)) as [k|e]; [|discriminate].
  destruct (_make_fake_args w r k) as [args|e]; [|discriminate].
  intros H. exists args.
  destruct (k_bind k args) as [b|e]; [|discriminate].
  destruct (default_config b) as [cfg|e]; [reflexivity | discriminate].
Qed.

Lemma per_kernel_files (w : World) (m : LoadedModule) (r : Ref) (st : State) :
  same_files st (snd (per_kernel w m r st)).
Proof.
  destruct (per_kernel_log w m r st) as [E | [args E]]; rewrite E.
  - apply same_files_refl.
  - now repeat split.
Qed.

(** ** The loop *)

(** One turn of the loop, with the writes spelled out. *)
Lemma emit_cons (w : World) (m : LoadedModule) (r : Ref) (ks : list Ref)
      (st : State) :
  emit_kernels w m (r :: ks) st =
  let st1 := snd (per_kernel w m r st) in
  match kernel_code w m r with
  | Raise _ => emit_kernels w m ks st1
  | Ok code =>
      match w_write_err w (st_nwrites st1) with
      | Some e => (Raise e, st1)
      | None =>
          match w_write_err w (S (st_nwrites st1)) with
          | Some e => (Raise e, wrote code st1)
          | None => emit_kernels w m ks (wrote nl2 (wrote code st1))
          end
      end
  end.
Proof.
  simpl. rewrite <- (per_kernel_result w m r st).
  destruct (per_kernel w m r st) as [[code|e] st1]; simpl; [|reflexivity].
  unfold bind, out_write.
  destruct (w_write_err w (st_nwrites st1)); [reflexivity|].
  simpl. destruct (w_write_err w (S (st_nwrites st1))); reflexivity.
Qed.

Lemma wrote_files (s : string) (st st' : State) :
  same_files st st' -> same_files (wrote s st) (wrote s st').
Proof.
  unfold same_files, wrote. simpl. intros (A & B & C).
  repeat split; congruence.
Qed.

(** The loop reads the call log nowhere: its result and what it does to the
    files depend on the files alone. *)
Lemma emit_same_files (w : World) (m : LoadedModule) (ks : list Ref) :
  forall s s', same_files s s' ->
    fst (emit_kernels w m ks s) = fst (emit_kernels w m ks s') /\
    same_files (snd (emit_kernels w m ks s)) (snd (emit_kernels w m ks s')).
Proof.
  induction ks as [|r ks IH]; intros s s' H.
  - simpl. split; [reflexivity | exact H].
  - rewrite !emit_cons. cbv zeta.
    assert (H1 : same_files (snd (per_kernel w m r s)) (snd (per_kernel w m r s'))).
    { eapply same_files_trans; [apply same_files_sym, per_kernel_files|].
      eapply same_files_trans; [exact H | apply per_kernel_files]. }
    destruct (kernel_code w m r) as [code|e]; [|now apply IH].
    destruct H1 as (A & B & C). rewrite <- C.
    destruct (w_write_err w (st_nwrites (snd (per_kernel w m r s)))).
    + simpl. split; [reflexivity | now repeat split].
    + destruct (w_write_err w (S (st_nwrites (snd (per_kernel w m r s))))).
      * simpl. split; [reflexivity|].
        apply wrote_files. now repeat split.
      * apply IH. apply wrote_files, wrote_files. now repeat split.
Qed.

(** Nothing in the loop writes to the error stream. *)
Lemma emit_err (w : World) (m : LoadedModule) (ks : list Ref) :
  forall st, st_err (snd (emit_kernels w m ks st)) = st_err st.
Proof.
  induction ks as [|r ks IH]; intros st; [reflexivity|].
  rewrite emit_cons. cbv zeta.
  destruct (per_kernel_files w m r st) as (_ & B & _).
  destruct (kernel_code w m r) as [code|e].
  - destruct (w_write_err w _); [simpl; congruence|].
    destruct (w_write_err w _); [simpl; congruence|].
    rewrite IH. simpl. congruence.
  - rewrite IH. congruence.
Qed.

(** When the loop runs to its end, the file has gained one block per kernel
    that went through, in order. *)
Lemma emit_ok (w : World) (m : LoadedModule) (ks : list Ref) :
  forall st st',
    emit_kernels w m ks st = (Ok tt, st') ->
    st_out st' =
    option_map (fun c => (c ++ blocks_text (generated w m ks))%string) (st_out st).
Proof.
  induction ks as [|r ks IH]; intros st st' H.
  - simpl in H. inversion H; subst. unfold generated, blocks_text. simpl.
    destruct (st_out st'); simpl; [now rewrite append_empty_r | reflexivity].
  - rewrite emit_cons in H. cbv zeta in H.
    destruct (per_kernel_files w m r st) as (A & _ & _).
    unfold generated in *. simpl.
    destruct (kernel_code w m r) as [code|e].
    + destruct (w_write_err w _); [discriminate|].
      destruct (w_write_err w _); [discriminate|].
      apply IH in H. rewrite H. simpl. rewrite <- A.
      destruct (st_out st); simpl; [|reflexivity].
      f_equal. change (blocks_text ?l) with (blocks_text l).
      rewrite !append_assoc. unfold blocks_text. simpl.
      now rewrite !append_assoc.
    + apply IH in H. rewrite H. now rewrite <- A.
Qed.

(** Every [bind] the loop makes is for a kernel of its list. *)
Lemma emit_log (w : World) (m : LoadedModule) (ks : list Ref) :
  forall st r args,
    In (EvBind r args) (st_log (snd (emit_kernels w m ks st))) ->
    In (EvBind r args) (st_log st) \/ In r ks.
Proof.
  induction ks as [|r0 ks IH]; intros st r args H; [now left|].
  rewrite emit_cons in H. cbv zeta in H.
  assert (Hstep : forall r' args',
             In (EvBind r' args') (st_log (snd (per_kernel w m r0 st))) ->
             In (EvBind r' args') (st_log st) \/ r' = r0).
  { intros r' args' Hin.
    destruct (per_kernel_log w m r0 st) as [E | [a E]]; rewrite E in Hin.
    - now left.
    - simpl in Hin. apply in_app_or in Hin. destruct Hin as [Hin|[Hin|[]]].
      + now left.
      + right. now inversion Hin. }
  assert (Hfin : In (EvBind r args) (st_log (snd (per_kernel w m r0 st))) \/ In r ks).
  { destruct (kernel_code w m r0) as [code|e].
    - destruct (w_write_err w _); [now left|].
      destruct (w_write_err w _); [now left|].
      apply IH in H. simpl in H. exact H.
    - now apply IH in H. }
  destruct Hfin as [Hin|Hin]; [|right; now right].
  destruct (Hstep _ _ Hin) as [Hl | ->]; [now left | right; now left].
Qed.

Lemma bind_events_cons (w : World) (m : LoadedModule) (r : Ref) (ks : list Ref) :
  bind_events w m (r :: ks) = bind_events w m [r] ++ bind_events w m ks.
Proof. unfold bind_events. simpl. now rewrite app_nil_r. Qed.

Lemma per_kernel_log_exact (w : World) (m : LoadedModule) (r : Ref) (st : State) :
  st_log (snd (per_kernel w m r st)) = st_log st ++ bind_events w m [r].
Proof.
  unfold per_kernel, bind_events, bind, lift, log. simpl flat_map.
  destruct (heap m r) as [k|]; simpl; [|now rewrite app_nil_r].
  destruct (_make_fake_args w r k) as [args|e]; simpl; [|now rewrite app_nil_r].
  destruct (k_bind k args) as [b|e]; [|reflexivity].
  destruct (default_config b) as [cfg|e]; reflexivity.
Qed.

(** The loop binds the kernels of its list in order, as far as it gets. *)
Lemma emit_log_prefix (w : World) (m : LoadedModule) (ks : list Ref) :
  forall st, exists n,
    st_log (snd (emit_kernels w m ks st)) =
    st_log st ++ firstn n (bind_events w m ks).
Proof.
  induction ks as [|r ks IH]; intros st.
  - exists 0. simpl. now rewrite app_nil_r.
  - rewrite emit_cons, bind_events_cons. cbv zeta.
    pose proof (per_kernel_log_exact w m r st) as E.
    set (st1 := snd (per_kernel w m r st)) in *.
    assert (Hstop : exists n, st_log st1 =
                              st_log st ++ firstn n (bind_events w m [r] ++ bind_events w m ks)).
    { exists (List.length (bind_events w m [r])).
      rewrite firstn_app, firstn_all, Nat.sub_diag. simpl firstn.
      now rewrite app_nil_r. }
    assert (Hgo : forall st2, st_log st2 = st_log st1 ->
                exists n, st_log (snd (emit_kernels w m ks st2)) =
                          st_log st ++ firstn n (bind_events w m [r] ++ bind_events w m ks)).
    { intros st2 H2. destruct (IH st2) as [n Hn].
      exists (List.length (bind_events w m [r]) + n).
      rewrite firstn_app_2, Hn, H2, E. now rewrite app_assoc. }
    destruct (kernel_code w m r) as [code|e]; [|now apply Hgo].
    destruct (w_write_err w _); [exact Hstop|].
    destruct (w_write_err w _); [exact Hstop|].
    now apply Hgo.
Qed.

Lemma emit_log_ok (w : World) (m : LoadedModule) (ks : list Ref) :
  forall st st',
    emit_kernels w m ks st = (Ok tt, st') ->
    st_log st' = st_log st ++ bind_events w m ks.
Proof.
  induction ks as [|r ks IH]; intros st st' H.
  - simpl in H. inversion H; subst. simpl. now rewrite app_nil_r.
  - rewrite emit_cons in H. cbv zeta in H. rewrite bind_events_cons.
    pose proof (per_kernel_log_exact w m r st) as E.
    destruct (kernel_code w m r) as [code|e].
    + destruct (w_write_err w _); [discriminate|].
      destruct (w_write_err w _); [discriminate|].
      apply IH in H. rewrite H. simpl st_log. rewrite E. now rewrite app_assoc.
    + apply IH in H. rewrite H, E. now rewrite app_assoc.
Qed.

Lemma generated_app (w : World) (m : LoadedModule) (ks1 ks2 : list Ref) :
  generated w m (ks1 ++ ks2) = generated w m ks1 ++ generated w m ks2.
Proof. apply flat_map_app. Qed.

Lemma bind_events_app (w : World) (m : LoadedModule) (ks1 ks2 : list Ref) :
  bind_events w m (ks1 ++ ks2) = bind_events w m ks1 ++ bind_events w m ks2.
Proof. apply flat_map_app. Qed.

Lemma blocks_text_app (cs1 cs2 : list string) :
  blocks_text (cs1 ++ cs2) = (blocks_text cs1 ++ blocks_text cs2)%string.
Proof.
  induction cs1 as [|c cs1 IH]; [reflexivity|].
  change ((c :: cs1) ++ cs2) with (c :: (cs1 ++ cs2)).
  rewrite !blocks_text_cons, IH. now rewrite !append_assoc.
Qed.

(** While the writes succeed, the loop runs to the end of its list. *)
Lemma emit_no_write_error (w : World) (m : LoadedModule) (ks : list Ref) :
  (forall n, w_write_err w n = None) ->
  forall st, exists st', emit_kernels w m ks st = (Ok tt, st').
Proof.
  intros Hw. induction ks as [|r ks IH]; intros st.
  - exists st. reflexivity.
  - rewrite emit_cons. cbv zeta.
    destruct (kernel_code w m r) as [code|e]; [|apply IH].
    rewrite !Hw. apply IH.
Qed.

(** ** [main] *)

(** The [try] block, step by step. *)
Lemma main_try_steps (w : World) (a : Args) (st : State) :
  main_try w a st =
  let st1 := add_event (EvLoad (inputfile a)) st in
  match w_load w (inputfile a) with
  | Raise e => (Raise e, st1)
  | Ok m =>
      let st2 := add_event EvImportHelion st1 in
      match w_import_helion w with
      | Some e => (Raise e, st2)
      | None =>
          with_open w (outputfile a) (emit_kernels w m (sorted_kernels w m)) st2
      end
  end.
Proof.
  unfold main_try, _load_module, import_helion, bind, lift, log, ret. cbv zeta.
  destruct (w_load w (inputfile a)) as [m|e]; [|reflexivity].
  destruct (w_import_helion w); reflexivity.
Qed.

(** The [with] block once the file is open. *)
Lemma with_open_steps (w : World) (path : string) (body : M unit) (st : State) :
  w_open_err w path = None ->
  with_open w path body st =
  let r := body (set_out (Some "") (add_event (EvOpen path) st)) in
  match w_close_err w with
  | Some e' => (Raise e', snd r)
  | None => r
  end.
Proof.
  intros H. unfold with_open. rewrite H. cbv zeta.
  destruct (body _) as [[[]|e] st1]; destruct (w_close_err w); reflexivity.
Qed.

Lemma main_parsed (w : World) (prog : string) (argv : list string) (a : Args) :
  parse_args prog argv = Parsed a ->
  main w prog argv =
  match main_try w a (initial_state w) with
  | (Ok _, st) => mkOutcome 0 st
  | (Raise e, st) => mkOutcome 255 (report w e st)
  end.
Proof. intros H. unfold main. now rewrite H. Qed.

(** The run up to the [with] block, when nothing fails before the loop. *)
Lemma main_try_loop (w : World) (a : Args) (m : LoadedModule) :
  w_load w (inputfile a) = Ok m ->
  w_import_helion w = None ->
  w_open_err w (outputfile a) = None ->
  main_try w a (initial_state w) =
  let r := emit_kernels w m (sorted_kernels w m) (opened_state w a) in
  match w_close_err w with
  | Some e' => (Raise e', snd r)
  | None => r
  end.
Proof.
  intros Hl Hi Ho. rewrite main_try_steps. cbv zeta. rewrite Hl, Hi.
  now rewrite with_open_steps.
Qed.

(** Only the handler writes to the error stream. *)
Lemma main_try_err (w : World) (a : Args) (st : State) :
  st_err (snd (main_try w a st)) = st_err st.
Proof.
  rewrite main_try_steps. cbv zeta.
  destruct (w_load w (inputfile a)) as [m|e]; [|reflexivity].
  destruct (w_import_helion w); [reflexivity|].
  unfold with_open.
  destruct (w_open_err w (outputfile a)); [reflexivity|].
  pose proof (emit_err w m (sorted_kernels w m)
                (set_out (Some "")
                   (add_event (EvOpen (outputfile a))
                      (add_event EvImportHelion
                         (add_event (EvLoad (inputfile a)) st))))) as E.
  destruct (emit_kernels w m _ _) as [[[]|e] st1]; simpl in E;
    destruct (w_close_err w); exact E.
Qed.

(** The flush at the shutdown of the interpreter matters only when the
    handler left lines behind. *)
Lemma process_status_255 (w : World) (flush_fails : bool) (a : Args) (e : Exn)
      (st : State) :
  main_try w a (initial_state w) = (Raise e, st) ->
  pending_lines w e = [] ->
  process_status w flush_fails a = 255%Z.
Proof. intros H Hp. unfold process_status. now rewrite H, Hp. Qed.

Lemma process_status_120 (w : World) (a : Args) (e : Exn) (st : State) (n : nat) :
  main_try w a (initial_state w) = (Raise e, st) ->
  w_stderr_fail w = Some n ->
  n < List.length (stderr_lines e) ->
  process_status w true a = 120%Z.
Proof.
  intros H Hf Hn. unfold process_status, pending_lines. rewrite H, Hf.
  destruct (skipn n (stderr_lines e)) eqn:E; [|reflexivity].
  exfalso. apply (f_equal (@List.length string)) in E.
  rewrite length_skipn in E. simpl in E. lia.
Qed.

(** An exception that leaves the [try] block of [main] reaches the
    handler, and [main] ends with [sys.exit(255)].  When the error stream
    takes the handler's lines, it holds the exception's arguments, or its
    string form when it has none, one per line, and the process ends with
    status 255.  When the stream fails after [n] lines, the failure is
    dropped, the stream holds these [n] lines, and the lines it did not
    take stay in its buffer: if the flush at the shutdown of the
    interpreter fails on them, the process ends with status 120.  A
    failing module load, a failing import of the kernel library and a
    failing [open] of the output file each leave the [try] block with
    their exception. *)
Theorem top_level_exception_status
        (w : World) (prog : string) (argv : list string) (a : Args) :
  parse_args prog argv = Parsed a ->
  (forall e st,
      main_try w a (initial_state w) = (Raise e, st) ->
      let lines :=
        map (fun msg => (msg ++ nl)%string)
            (match exn_args e with [] => [exn_str e] | args => args end) in
      exit_status (main w prog argv) = 255%Z /\
      out_file (main w prog argv) = st_out st /\
      (w_stderr_fail w = None ->
       err_stream (main w prog argv) = concat_all lines /\
       forall flush_fails, process_status w flush_fails a = 255%Z) /\
      (forall n,
          w_stderr_fail w = Some n ->
          err_stream (main w prog argv) = concat_all (firstn n lines) /\
          (n < List.length lines -> process_status w true a = 120%Z))) /\
  (forall e,
      w_load w (inputfile a) = Raise e ->
      exists st, main_try w a (initial_state w) = (Raise e, st)) /\
  (forall m e,
      w_load w (inputfile a) = Ok m ->
      w_import_helion w = Some e ->
      exists st, main_try w a (initial_state w) = (Raise e, st)) /\
  (forall m e,
      w_load w (inputfile a) = Ok m ->
      w_import_helion w = None ->
      w_open_err w (outputfile a) = Some e ->
      exists st, main_try w a (initial_state w) = (Raise e, st)).
Proof.
  intros Hp. split; [|split; [|split]].
  - intros e st H lines.
    assert (Herr : err_stream (main w prog argv) =
                   concat_all (match w_stderr_fail w with
                               | None => lines
                               | Some n => firstn n lines
                               end)).
    { rewrite (main_parsed _ _ _ _ Hp), H. unfold err_stream, report. simpl.
      pose proof (main_try_err w a (initial_state w)) as E.
      rewrite H in E. simpl in E. rewrite E. reflexivity. }
    split; [rewrite (main_parsed _ _ _ _ Hp), H; reflexivity|].
    split; [rewrite (main_parsed _ _ _ _ Hp), H; reflexivity|].
    split.
    + intros Hf. rewrite Hf in Herr. split; [exact Herr|].
      intros flush_fails. apply (process_status_255 w flush_fails a e st H).
      unfold pending_lines. now rewrite Hf.
    + intros n Hf. rewrite Hf in Herr. split; [exact Herr|].
      intros Hn. exact (process_status_120 w a e st n H Hf Hn).
  - intros e He. rewrite main_try_steps. cbv zeta. rewrite He. eauto.
  - intros m e Hm He. rewrite main_try_steps. cbv zeta. rewrite Hm, He. eauto.
  - intros m e Hm Hi Ho. rewrite main_try_steps. cbv zeta. rewrite Hm, Hi.
    unfold with_open. rewrite Ho. eauto.
Qed.

(** A run on a path that does not exist, the error stream in order. *)
Lemma top_level_exception_status_witness :
  exit_status (main demo_world "helion_wrapper.py"
                    ["--inputfile"; "nope.py"; "--outputfile"; "out.txt"]) = 255%Z /\
  err_stream (main demo_world "helion_wrapper.py"
                   ["--inputfile"; "nope.py"; "--outputfile"; "out.txt"]) =
    ("2" ++ nl ++ "No such file or directory" ++ nl)%string /\
  process_status demo_world true (mkArgs "nope.py" "out.txt") = 255%Z.
Proof.
  destruct (top_level_exception_status demo_world "helion_wrapper.py"
              ["--inputfile"; "nope.py"; "--outputfile"; "out.txt"]
              (mkArgs "nope.py" "out.txt") eq_refl) as [H _].
  destruct (H no_such_file
              (add_event (EvLoad "nope.py") (initial_state demo_world)) eq_refl)
    as (H1 & _ & H2 & _).
  destruct (H2 eq_refl) as [H3 H4].
  split; [exact H1 | split; [exact H3 | exact (H4 true)]].
Defined.

(** C1. A run on an input path that does not exist, with an error stream
    that takes nothing.  The handler's write fails and the failure is
    dropped; [main] ends with [sys.exit(255)]; but the two lines of the
    report are still in the buffer of the error stream, the flush at the
    shutdown of the interpreter fails on them, and the process ends with
    status 120, not with 255. *)
Theorem refused_stderr_exits_120 :
  let w := refusing_stderr_world demo_module in
  let a := mkArgs "nope.py" "out.txt" in
  let argv := ["--inputfile"; "nope.py"; "--outputfile"; "out.txt"] in
  parse_args "helion_wrapper.py" argv = Parsed a /\
  fst (main_try w a (initial_state w)) = Raise no_such_file /\
  exit_status (main w "helion_wrapper.py" argv) = 255%Z /\
  err_stream (main w "helion_wrapper.py" argv) = "" /\
  pending_lines w no_such_file =
    [("2" ++ nl)%string; ("No such file or directory" ++ nl)%string] /\
  process_status w true a = 120%Z /\
  process_status w true a <> 255%Z.
Proof.
  cbv zeta. repeat split; try reflexivity.
  vm_compute. discriminate.
Qed.

(** ** Per-kernel failures *)

(** The ways the per-kernel sequence of kernel [k], known as [r], can
    raise [e]: in argument synthesis, in [bind], in [default_config] or in
    [to_triton_code]. *)
Lemma kernel_code_raises (w : World) (m : LoadedModule) (r : Ref) (k : Kernel)
      (e : Exn) :
  heap m r = ObjKernel k ->
  (_make_fake_args w r k = Raise e \/
   exists args, _make_fake_args w r k = Ok args /\
     (k_bind k args = Raise e \/
      exists b, k_bind k args = Ok b /\
        (default_config b = Raise e \/
         exists cfg, default_config b = Ok cfg /\
                     to_triton_code b cfg = Raise e))) ->
  kernel_code w m r = Raise e.
Proof.
  intros Hk H. unfold kernel_code. rewrite Hk. simpl.
  destruct H as [H | (args & Ha & H)]; [now rewrite H|]. rewrite Ha.
  destruct H as [H | (b & Hb & H)]; [now rewrite H|]. rewrite Hb.
  destruct H as [H | (cfg & Hc & H)]; [now rewrite H|]. now rewrite Hc.
Qed.

(** A kernel whose sequence raises can be struck from the loop's list. *)
Lemma skip_anywhere (w : World) (m : LoadedModule) (r : Ref) (e : Exn)
      (ks1 ks2 : list Ref) :
  kernel_code w m r = Raise e ->
  forall st,
    fst (emit_kernels w m (ks1 ++ r :: ks2) st) =
    fst (emit_kernels w m (ks1 ++ ks2) st) /\
    same_files (snd (emit_kernels w m (ks1 ++ r :: ks2) st))
               (snd (emit_kernels w m (ks1 ++ ks2) st)).
Proof.
  intros Hr. induction ks1 as [|r1 ks1 IH]; intros st.
  - simpl app. rewrite emit_cons. cbv zeta. rewrite Hr.
    apply emit_same_files, same_files_sym, per_kernel_files.
  - change ((r1 :: ks1) ++ r :: ks2) with (r1 :: (ks1 ++ r :: ks2)).
    change ((r1 :: ks1) ++ ks2) with (r1 :: (ks1 ++ ks2)).
    rewrite !emit_cons. cbv zeta.
    destruct (kernel_code w m r1) as [code|e1]; [|apply IH].
    destruct (w_write_err w _); [split; [reflexivity | apply same_files_refl]|].
    destruct (w_write_err w _); [split; [reflexivity | apply same_files_refl]|].
    apply IH.
Qed.

(** C2. When the per-kernel sequence of a kernel raises, in argument
    synthesis, binding, the default configuration or code generation, the
    kernel is skipped and the loop goes on with the kernels after it.
    Against the loop without the kernel: the same result, the same output
    file and the same number of writes, so no part of a block for it, and
    nothing on the error stream.  And in itself: while the writes
    succeed, the loop runs to the end of its list, the kernels before and
    after the failing one are bound in order, the ones after it as well as
    the ones before, and the output file gains the blocks of those that
    went through, and nothing for the failing one. *)
Theorem failing_kernel_is_skipped
        (w : World) (m : LoadedModule) (r : Ref) (k : Kernel) (e : Exn)
        (ks1 ks2 : list Ref) (st : State) :
  heap m r = ObjKernel k ->
  (_make_fake_args w r k = Raise e \/
   exists args, _make_fake_args w r k = Ok args /\
     (k_bind k args = Raise e \/
      exists b, k_bind k args = Ok b /\
        (default_config b = Raise e \/
         exists cfg, default_config b = Ok cfg /\
                     to_triton_code b cfg = Raise e))) ->
  let with_r := emit_kernels w m (ks1 ++ r :: ks2) st in
  let without := emit_kernels w m (ks1 ++ ks2) st in
  (fst with_r = fst without /\
   st_out (snd with_r) = st_out (snd without) /\
   st_nwrites (snd with_r) = st_nwrites (snd without) /\
   st_err (snd with_r) = st_err st) /\
  ((forall n, w_write_err w n = None) ->
   exists st',
     with_r = (Ok tt, st') /\
     st_out st' =
       option_map (fun c => (c ++ blocks_text (generated w m ks1)
                               ++ blocks_text (generated w m ks2))%string)
                  (st_out st) /\
     st_log st' =
       st_log st ++ bind_events w m ks1 ++ bind_events w m [r]
                 ++ bind_events w m ks2).
Proof.
  intros Hk H with_r without.
  pose proof (kernel_code_raises _ _ _ _ _ Hk H) as Hr.
  split.
  - destruct (skip_anywhere w m r e ks1 ks2 Hr st) as (R & A & _ & C).
    repeat split; try assumption.
    apply emit_err.
  - intros Hw.
    destruct (emit_no_write_error w m (ks1 ++ r :: ks2) Hw st) as [st' E].
    exists st'. split; [exact E|]. split.
    + rewrite (emit_ok _ _ _ _ _ E), generated_app, blocks_text_app.
      assert (Hg : generated w m (r :: ks2) = generated w m ks2).
      { unfold generated. simpl. now rewrite Hr. }
      now rewrite Hg.
    + rewrite (emit_log_ok _ _ _ _ _ E), bind_events_app, (bind_events_cons w m r ks2).
      reflexivity.
Qed.

(** The loop over [mul], [bad], [add]: [add] is bound and written after
    [bad] was bound and skipped. *)
Lemma failing_kernel_is_skipped_witness :
  exists st',
    emit_kernels demo_world demo_module [2; 4; 1]
                 (opened_state demo_world (mkArgs "in.py" "out.txt")) = (Ok tt, st') /\
    st_out st' = Some ("MUL" ++ nl ++ nl ++ "ADD" ++ nl ++ nl)%string /\
    st_log st' =
      [EvLoad "in.py"; EvImportHelion; EvOpen "out.txt";
       EvBind 2 [VTensor [1%Z]]; EvBind 4 [];
       EvBind 1 [VTensor [1%Z]; VTensor [1%Z]]].
Proof.
  refine (proj2 (failing_kernel_is_skipped demo_world demo_module 4
                   (broken_kernel (Some 4%Z)) bind_error [2] [1]
                   (opened_state demo_world (mkArgs "in.py" "out.txt")) eq_refl _)
                (fun _ => eq_refl)).
  right. exists []. split; [reflexivity | left; reflexivity].
Defined.

(** ** The kernel list and the output file *)

Lemma sorted_kernels_NoDup (w : World) (m : LoadedModule) :
  set_semantics w -> NoDup (sorted_kernels w m).
Proof.
  intros Hs. apply sorted_NoDup, (proj1 (Hs (collect_kernels m))).
Qed.

Lemma sorted_kernels_In (w : World) (m : LoadedModule) (r : Ref) :
  set_semantics w ->
  (In r (sorted_kernels w m) <-> In r (collect_kernels m)).
Proof.
  intros Hs. unfold sorted_kernels. rewrite sorted_In.
  apply (proj2 (Hs (collect_kernels m))).
Qed.

(** A run that ends with status 0 went through the whole [try] block. *)
Lemma main_exit_0 (w : World) (prog : string) (argv : list string) (a : Args) :
  parse_args prog argv = Parsed a ->
  exit_status (main w prog argv) = 0%Z ->
  exists st, main_try w a (initial_state w) = (Ok tt, st) /\
             final (main w prog argv) = st.
Proof.
  intros Hp. rewrite (main_parsed _ _ _ _ Hp).
  destruct (main_try w a (initial_state w)) as [[[]|e] st]; simpl.
  - intros _. now exists st.
  - discriminate.
Qed.

Lemma main_try_ok_loop (w : World) (a : Args) (m : LoadedModule) (st : State) :
  w_load w (inputfile a) = Ok m ->
  main_try w a (initial_state w) = (Ok tt, st) ->
  emit_kernels w m (sorted_kernels w m) (opened_state w a) = (Ok tt, st).
Proof.
  intros Hl. rewrite main_try_steps. cbv zeta. rewrite Hl.
  destruct (w_import_helion w); [discriminate|].
  unfold with_open. destruct (w_open_err w (outputfile a)); [discriminate|].
  fold (opened_state w a).
  destruct (emit_kernels w m _ _) as [[[]|e] st1];
    destruct (w_close_err w); try discriminate.
  now intros H.
Qed.

(** C3. In a run that ends normally, the kernels the loop goes through are
    the collected ones, each once, in ascending order of [_line_no], which
    is the first line of the kernel's function and 0 when that cannot be
    read; the output file then holds the generated text of each kernel
    whose sequence succeeded, in that order, each followed by two line
    feeds, and nothing else. *)
Theorem output_is_blocks_in_line_order
        (w : World) (prog : string) (argv : list string) (a : Args)
        (m : LoadedModule) :
  set_semantics w ->
  parse_args prog argv = Parsed a ->
  w_load w (inputfile a) = Ok m ->
  exit_status (main w prog argv) = 0%Z ->
  let ks := sorted_kernels w m in
  NoDup ks /\
  (forall r, In r ks <-> In r (collect_kernels m)) /\
  StronglySorted (fun r1 r2 => (_line_no m r1 <= _line_no m r2)%Z) ks /\
  (forall r k, heap m r = ObjKernel k ->
               _line_no m r = match k_firstlineno k with
                              | Some n => n
                              | None => 0%Z
                              end) /\
  out_file (main w prog argv) =
    Some (concat_all
            (map (fun code => (code ++ nl ++ nl)%string)
                 (flat_map (fun r => match kernel_code w m r with
                                     | Ok code => [code]
                                     | Raise _ => []
                                     end) ks))).
Proof.
  intros Hs Hp Hl H0 ks.
  split; [now apply sorted_kernels_NoDup|].
  split; [intros r; now apply sorted_kernels_In|].
  split; [apply (sorted_sorted (_line_no m))|].
  split; [intros r k Hk; unfold _line_no; now rewrite Hk|].
  destruct (main_exit_0 _ _ _ _ Hp H0) as (st & Ht & Hf).
  apply (main_try_ok_loop _ _ _ _ Hl), emit_ok in Ht.
  unfold out_file. rewrite Hf, Ht. reflexivity.
Qed.

Lemma set_in_order_ok (l : list Ref) :
  NoDup (set_in_order l) /\ (forall x, In x (set_in_order l) <-> In x l).
Proof.
  split; [apply NoDup_nodup | intros x; apply nodup_In].
Qed.

Lemma set_reversed_ok (l : list Ref) :
  NoDup (set_reversed l) /\ (forall x, In x (set_reversed l) <-> In x l).
Proof.
  unfold set_reversed. split.
  - apply NoDup_rev, NoDup_nodup.
  - intros x. rewrite <- in_rev. apply nodup_In.
Qed.

Lemma calm_world_in_order (m : LoadedModule) :
  set_semantics (calm_world m set_in_order).
Proof. intros l. apply set_in_order_ok. Qed.

Lemma calm_world_reversed (m : LoadedModule) :
  set_semantics (calm_world m set_reversed).
Proof. intros l. apply set_reversed_ok. Qed.

(** The sample module: [mul] (line 3), then [bad] (line 4), then [add]
    (line 6); [bad] does not bind and leaves no block. *)
Lemma output_is_blocks_in_line_order_witness :
  sorted_kernels demo_world demo_module = [2; 4; 1] /\
  out_file (main demo_world "helion_wrapper.py" demo_argv) =
    Some ("MUL" ++ nl ++ nl ++ "ADD" ++ nl ++ nl)%string.
Proof.
  split; [reflexivity|].
  destruct (output_is_blocks_in_line_order demo_world "helion_wrapper.py"
              demo_argv (mkArgs "in.py" "out.txt") demo_module
              (calm_world_in_order demo_module) eq_refl eq_refl eq_refl)
    as (_ & _ & _ & _ & H).
  exact H.
Defined.

(** ** Argument synthesis *)

Lemma fake_args_from_length (w : World) (r : Ref) (ps : list Param) :
  forall i, List.length (fake_args_from w r i ps) = List.length ps.
Proof.
  induction ps as [|p ps IH]; intros i; simpl; [reflexivity | now rewrite IH].
Qed.

Lemma fake_args_from_nth (w : World) (r : Ref) (ps : list Param) :
  forall i j p,
    nth_error ps j = Some p ->
    nth_error (fake_args_from w r i ps) j = Some (fake_arg w r (i + j) p).
Proof.
  induction ps as [|p0 ps IH]; intros i j p H.
  - destruct j; discriminate.
  - destruct j as [|j]; simpl in *.
    + inversion H; subst. now rewrite Nat.add_0_r.
    + rewrite (IH (S i) j p H). f_equal. f_equal. lia.
Qed.

(** C4. With [torch] importable, [_make_fake_args] returns one value per
    parameter of the kernel's signature, in order: 1 for the annotation
    [int], 1.0 for [float], [False] for [bool]; for any other annotation,
    and for none, the tensor [torch.empty([1])] of shape [[1]], or [None]
    when building that tensor raises. *)
Theorem fake_args_one_per_parameter
        (w : World) (r : Ref) (k : Kernel) (ps : list Param) :
  w_torch_ok w = true ->
  k_signature k = Ok ps ->
  exists args,
    _make_fake_args w r k = Ok args /\
    List.length args = List.length ps /\
    forall i p,
      nth_error ps i = Some p ->
      exists v,
        nth_error args i = Some v /\
        (p_annotation p = AnnInt -> v = VInt 1) /\
        (p_annotation p = AnnFloat -> v = VFloat (1 # 1)) /\
        (p_annotation p = AnnBool -> v = VBool false) /\
        (p_annotation p <> AnnInt ->
         p_annotation p <> AnnFloat ->
         p_annotation p <> AnnBool ->
         (w_torch_empty w r i = None -> v = VTensor [1%Z]) /\
         (forall e, w_torch_empty w r i = Some e -> v = VNone)).
Proof.
  intros Ht Hs. exists (fake_args_from w r 0 ps).
  split; [unfold _make_fake_args; now rewrite Ht, Hs|].
  split; [apply fake_args_from_length|].
  intros i p Hp. exists (fake_arg w r i p).
  split; [now rewrite (fake_args_from_nth w r ps 0 i p Hp)|].
  unfold fake_arg.
  destruct (p_annotation p); repeat split; intros; try congruence;
    match goal with
    | H : w_torch_empty w r i = _ |- _ => now rewrite H
    end.
Qed.

(** An [int], a [float], a [bool] and an untyped parameter. *)
Lemma fake_args_one_per_parameter_witness :
  _make_fake_args demo_world 7 (easy_kernel (Some 1%Z) mixed_params "K") =
  Ok [VInt 1; VFloat (1 # 1); VBool false; VTensor [1%Z]].
Proof.
  destruct (fake_args_one_per_parameter demo_world 7
              (easy_kernel (Some 1%Z) mixed_params "K") mixed_params
              eq_refl eq_refl) as (args & H & _).
  rewrite H. symmetry.
  change (Ok [VInt 1; VFloat (1 # 1); VBool false; VTensor [1%Z]] = Ok args) in H.
  exact H.
Defined.

(** ** Order of the blocks across runs *)

(** C5. Two runs on the same module that differ in nothing but the order in
    which the set of kernels is iterated: the module's two kernels start on
    the same line, the sort leaves them in the set's order, and the two
    output files differ. *)
Theorem same_line_kernels_follow_set_order :
  let w1 := calm_world tie_module set_in_order in
  let w2 := with_set_iter w1 set_reversed in
  set_semantics w1 /\ set_semantics w2 /\
  _line_no tie_module 1 = _line_no tie_module 2 /\
  exit_status (main w1 "helion_wrapper.py" demo_argv) = 0%Z /\
  exit_status (main w2 "helion_wrapper.py" demo_argv) = 0%Z /\
  out_file (main w1 "helion_wrapper.py" demo_argv) =
    Some ("A" ++ nl ++ nl ++ "B" ++ nl ++ nl)%string /\
  out_file (main w2 "helion_wrapper.py" demo_argv) =
    Some ("B" ++ nl ++ nl ++ "A" ++ nl ++ nl)%string /\
  out_file (main w1 "helion_wrapper.py" demo_argv) <>
  out_file (main w2 "helion_wrapper.py" demo_argv).
Proof.
  cbv zeta.
  split; [apply calm_world_in_order|].
  split; [apply (calm_world_reversed tie_module)|].
  repeat split; try reflexivity.
  vm_compute. discriminate.
Qed.

(** The loop looks at the world through [torch] and the file writes, and at
    the module through its objects; it is the same loop in two worlds and
    two modules that agree on those. *)
Section LoopExtensionality.
Variables (w w' : World) (m m' : LoadedModule).
Hypothesis torch_ok_agrees : w_torch_ok w = w_torch_ok w'.
Hypothesis torch_empty_agrees : forall r i, w_torch_empty w r i = w_torch_empty w' r i.
Hypothesis write_err_agrees : forall n, w_write_err w n = w_write_err w' n.
Hypothesis heap_agrees : forall r, heap m r = heap m' r.

Lemma fake_args_from_ext (r : Ref) (ps : list Param) :
  forall i, fake_args_from w r i ps = fake_args_from w' r i ps.
Proof.
  induction ps as [|p ps IH]; intros i; simpl; [reflexivity|].
  unfold fake_arg. now rewrite IH, torch_empty_agrees.
Qed.

Lemma per_kernel_ext (r : Ref) (st : State) :
  per_kernel w m r st = per_kernel w' m' r st.
Proof.
  unfold per_kernel, bind, lift. rewrite heap_agrees.
  destruct (as_kernel (heap m' r)) as [k|e]; [|reflexivity].
  unfold _make_fake_args. rewrite torch_ok_agrees.
  destruct (w_torch_ok w'); [|reflexivity].
  destruct (k_signature k) as [ps|e]; [|reflexivity].
  now rewrite fake_args_from_ext.
Qed.

Lemma emit_ext (ks : list Ref) :
  forall st, emit_kernels w m ks st = emit_kernels w' m' ks st.
Proof.
  induction ks as [|r ks IH]; intros st; [reflexivity|].
  simpl. rewrite per_kernel_ext.
  destruct (per_kernel w' m' r st) as [[code|e] st1]; [|apply IH].
  unfold bind, out_write. rewrite write_err_agrees.
  destruct (w_write_err w' (st_nwrites st1)); [reflexivity|].
  simpl. rewrite write_err_agrees.
  destruct (w_write_err w' (S (st_nwrites st1))); [reflexivity|].
  apply IH.
Qed.
End LoopExtensionality.

Lemma emit_set_iter (w : World) (f : list Ref -> list Ref) (m : LoadedModule)
      (ks : list Ref) (st : State) :
  emit_kernels (with_set_iter w f) m ks st = emit_kernels w m ks st.
Proof. now apply emit_ext. Qed.

(** The sort undoes the set's order when no two kernels share a key. *)
Lemma sorted_kernels_set_iter (w : World) (f g : list Ref -> list Ref)
      (m : LoadedModule) :
  set_semantics (with_set_iter w f) ->
  set_semantics (with_set_iter w g) ->
  (forall r1 r2, In r1 (collect_kernels m) -> In r2 (collect_kernels m) ->
                 _line_no m r1 = _line_no m r2 -> r1 = r2) ->
  sorted_kernels (with_set_iter w f) m = sorted_kernels (with_set_iter w g) m.
Proof.
  intros Hf Hg Hinj.
  apply (ascending_unique (_line_no m)).
  - intros x y Hx Hy. apply Hinj.
    + now apply (sorted_kernels_In _ m x Hf).
    + now apply (sorted_kernels_In _ m y Hf).
  - now apply sorted_kernels_NoDup.
  - now apply sorted_kernels_NoDup.
  - intros x. rewrite (sorted_kernels_In _ m x Hf), (sorted_kernels_In _ m x Hg).
    reflexivity.
  - apply sorted_sorted.
  - apply sorted_sorted.
Qed.

(** When the kernels of every module the world can load start on pairwise
    different lines, the whole outcome of a run is the same whatever the
    order in which sets are iterated. *)
Theorem distinct_lines_fix_the_outcome
        (w : World) (f g : list Ref -> list Ref) (prog : string)
        (argv : list string) :
  set_semantics (with_set_iter w f) ->
  set_semantics (with_set_iter w g) ->
  (forall path m, w_load w path = Ok m ->
     forall r1 r2, In r1 (collect_kernels m) -> In r2 (collect_kernels m) ->
                   _line_no m r1 = _line_no m r2 -> r1 = r2) ->
  main (with_set_iter w f) prog argv = main (with_set_iter w g) prog argv.
Proof.
  intros Hf Hg Hinj. unfold main.
  destruct (parse_args prog argv) as [a|status err]; [|reflexivity].
  assert (E : main_try (with_set_iter w f) a (initial_state (with_set_iter w f)) =
              main_try (with_set_iter w g) a (initial_state (with_set_iter w g))).
  { rewrite !main_try_steps. cbv zeta. simpl w_load. simpl w_import_helion.
    change (initial_state (with_set_iter w g)) with (initial_state (with_set_iter w f)).
    destruct (w_load w (inputfile a)) as [m|e] eqn:Hl; [|reflexivity].
    destruct (w_import_helion w); [reflexivity|].
    rewrite (sorted_kernels_set_iter w f g m Hf Hg (Hinj _ _ Hl)).
    unfold with_open. simpl w_open_err. simpl w_close_err.
    rewrite !emit_set_iter. reflexivity. }
  rewrite E. reflexivity.
Qed.

(** The sample module, its set of kernels iterated in two orders. *)
Lemma distinct_lines_fix_the_outcome_witness :
  main (with_set_iter demo_world set_in_order) "helion_wrapper.py" demo_argv =
  main (with_set_iter demo_world set_reversed) "helion_wrapper.py" demo_argv.
Proof.
  apply (distinct_lines_fix_the_outcome demo_world set_in_order set_reversed).
  - intros l. apply set_in_order_ok.
  - intros l. apply set_reversed_ok.
  - intros path m Hl. unfold demo_world, calm_world, demo_load in Hl. simpl in Hl.
    destruct (String.eqb path "in.py"); [|discriminate].
    inversion Hl; subst m. simpl.
    intros r1 r2 [<-|[<-|[<-|[]]]] [<-|[<-|[<-|[]]]]; vm_compute; congruence.
Defined.

(** ** Runs that emit nothing *)

Lemma emit_all_fail (w : World) (m : LoadedModule) (ks : list Ref) :
  (forall r, In r ks -> exists e, kernel_code w m r = Raise e) ->
  forall st,
    fst (emit_kernels w m ks st) = Ok tt /\
    same_files st (snd (emit_kernels w m ks st)).
Proof.
  induction ks as [|r ks IH]; intros Hall st.
  - simpl. split; [reflexivity | apply same_files_refl].
  - rewrite emit_cons. cbv zeta.
    destruct (Hall r (or_introl eq_refl)) as [e He]. rewrite He.
    destruct (IH (fun r' Hr' => Hall r' (or_intror Hr'))
                 (snd (per_kernel w m r st))) as [R S].
    split; [exact R|].
    eapply same_files_trans; [apply per_kernel_files | exact S].
Qed.

(** The shared core: every kernel of the sorted list raises. *)
Lemma no_block_gives_empty_file_aux
      (w : World) (prog : string) (argv : list string) (a : Args)
      (m : LoadedModule) :
  set_semantics w ->
  parse_args prog argv = Parsed a ->
  w_load w (inputfile a) = Ok m ->
  w_import_helion w = None ->
  w_open_err w (outputfile a) = None ->
  w_close_err w = None ->
  (forall r, In r (collect_kernels m) -> exists e, kernel_code w m r = Raise e) ->
  exit_status (main w prog argv) = 0%Z /\
  out_file (main w prog argv) = Some "" /\
  err_stream (main w prog argv) = "".
Proof.
  intros Hs Hp Hl Hi Ho Hc Hk.
  assert (Hall : forall r, In r (sorted_kernels w m) ->
                           exists e, kernel_code w m r = Raise e).
  { intros r Hr. apply (sorted_kernels_In w m r Hs) in Hr. now apply Hk. }
  destruct (emit_all_fail w m _ Hall (opened_state w a)) as (R & A & B & _).
  rewrite (main_parsed _ _ _ _ Hp), (main_try_loop _ _ _ Hl Hi Ho), Hc.
  cbv zeta.
  destruct (emit_kernels w m (sorted_kernels w m) (opened_state w a))
    as [[[]|e] st] eqn:E; simpl in R, A, B; [|discriminate].
  unfold out_file, err_stream. simpl. rewrite <- A, <- B. now repeat split.
Qed.

(** C6. When the module loads, the kernel library imports and the output
    file opens and closes, a module with no public kernel, or one whose
    kernels all raise in their per-kernel sequence, leaves an output file
    that exists and is empty, nothing on the error stream, and exit
    status 0. *)
Theorem no_block_gives_empty_file
        (w : World) (prog : string) (argv : list string) (a : Args)
        (m : LoadedModule) :
  set_semantics w ->
  parse_args prog argv = Parsed a ->
  w_load w (inputfile a) = Ok m ->
  w_import_helion w = None ->
  w_open_err w (outputfile a) = None ->
  w_close_err w = None ->
  (collect_kernels m = [] \/
   forall r, In r (collect_kernels m) -> exists e, kernel_code w m r = Raise e) ->
  exit_status (main w prog argv) = 0%Z /\
  out_file (main w prog argv) = Some "" /\
  err_stream (main w prog argv) = "".
Proof.
  intros Hs Hp Hl Hi Ho Hc Hk.
  apply (no_block_gives_empty_file_aux w prog argv a m Hs Hp Hl Hi Ho Hc).
  intros r Hr.
  destruct Hk as [Hk|Hk]; [rewrite Hk in Hr; destruct Hr | now apply Hk].
Qed.

(** A module whose only kernel does not bind. *)
Lemma no_block_gives_empty_file_witness :
  exit_status (main (calm_world broken_module set_in_order)
                    "helion_wrapper.py" demo_argv) = 0%Z /\
  out_file (main (calm_world broken_module set_in_order)
                 "helion_wrapper.py" demo_argv) = Some "" /\
  err_stream (main (calm_world broken_module set_in_order)
                   "helion_wrapper.py" demo_argv) = "".
Proof.
  apply (no_block_gives_empty_file (calm_world broken_module set_in_order)
           "helion_wrapper.py" demo_argv (mkArgs "in.py" "out.txt") broken_module
           (calm_world_in_order broken_module) eq_refl eq_refl eq_refl eq_refl
           eq_refl).
  right. intros r [<-|[]]. exists bind_error. reflexivity.
Defined.

(** ** Private names *)

Lemma collect_kernels_public (m : LoadedModule) (r : Ref) :
  In r (collect_kernels m) <->
  exists name, In (name, r) (members m) /\
               String.prefix "_" name = false /\ is_kernel m r = true.
Proof.
  unfold collect_kernels. rewrite in_map_iff. split.
  - intros ([name r'] & E & Hin). simpl in E. subst r'.
    apply filter_In in Hin. destruct Hin as [Hin Hb]. simpl in Hb.
    apply andb_true_iff in Hb. destruct Hb as [Hpub Hk].
    exists name. repeat split; try assumption.
    unfold is_public in Hpub. now apply negb_true_iff in Hpub.
  - intros (name & Hin & Hpub & Hk). exists (name, r). split; [reflexivity|].
    apply filter_In. split; [exact Hin|]. simpl.
    unfold is_public. now rewrite Hpub, Hk.
Qed.

Lemma collect_kernels_strip (m : LoadedModule) :
  collect_kernels (strip_private m) = collect_kernels m.
Proof.
  unfold collect_kernels, strip_private, is_kernel. simpl. f_equal.
  induction (members m) as [|[name r] l IH]; simpl; [reflexivity|].
  destruct (is_public name) eqn:E; simpl.
  - rewrite E. simpl. destruct (heap m r); simpl; now rewrite IH.
  - exact IH.
Qed.

Lemma sorted_kernels_strip (w : World) (m : LoadedModule) :
  sorted_kernels (hide_private w) (strip_private m) = sorted_kernels w m.
Proof.
  unfold sorted_kernels. rewrite collect_kernels_strip. reflexivity.
Qed.

(** The kernels a run binds are kernels of its sorted list. *)
Lemma main_binds (w : World) (prog : string) (argv : list string) (a : Args)
      (m : LoadedModule) (r : Ref) (args : list PyVal) :
  parse_args prog argv = Parsed a ->
  w_load w (inputfile a) = Ok m ->
  In (EvBind r args) (calls (main w prog argv)) ->
  In r (sorted_kernels w m).
Proof.
  intros Hp Hl. rewrite (main_parsed _ _ _ _ Hp), main_try_steps. cbv zeta.
  rewrite Hl.
  assert (Hsmall : forall l, In (EvBind r args) (st_log (initial_state w) ++ l) ->
                             Forall (fun ev => forall r' a', ev <> EvBind r' a') l ->
                             False).
  { intros l Hin Hall. simpl in Hin. rewrite Forall_forall in Hall.
    exact (Hall _ Hin r args eq_refl). }
  destruct (w_import_helion w).
  { unfold calls. simpl. intros Hin. exfalso.
    apply (Hsmall [EvLoad (inputfile a); EvImportHelion] Hin).
    repeat constructor; discriminate. }
  unfold with_open.
  destruct (w_open_err w (outputfile a)).
  { unfold calls. simpl. intros Hin. exfalso.
    apply (Hsmall [EvLoad (inputfile a); EvImportHelion; EvOpen (outputfile a)] Hin).
    repeat constructor; discriminate. }
  fold (opened_state w a).
  pose proof (emit_log w m (sorted_kernels w m) (opened_state w a) r args) as Hlog.
  destruct (emit_kernels w m (sorted_kernels w m) (opened_state w a))
    as [[[]|e] st1]; simpl in Hlog;
    destruct (w_close_err w); unfold calls; simpl; intros Hin;
      (destruct (Hlog Hin) as [Hin0|Hks]; [exfalso | exact Hks]);
      apply (Hsmall [EvLoad (inputfile a); EvImportHelion; EvOpen (outputfile a)] Hin0);
      repeat constructor; discriminate.
Qed.

(** A run never looks at the private names of the module. *)
Lemma main_hide_private (w : World) (prog : string) (argv : list string) :
  main (hide_private w) prog argv = main w prog argv.
Proof.
  unfold main. destruct (parse_args prog argv) as [a|status err]; [|reflexivity].
  change (initial_state (hide_private w)) with (initial_state w).
  rewrite !main_try_steps. cbv zeta. simpl w_load. simpl w_import_helion.
  destruct (w_load w (inputfile a)) as [m|e]; simpl map_result; [|reflexivity].
  destruct (w_import_helion w); [reflexivity|].
  unfold with_open. simpl w_open_err. simpl w_close_err.
  rewrite sorted_kernels_strip.
  rewrite (emit_ext (hide_private w) w (strip_private m) m eq_refl
             (fun _ _ => eq_refl) (fun _ => eq_refl) (fun _ => eq_refl)).
  reflexivity.
Qed.

(** C7. An object that the module binds to underscore-prefixed names only
    is not among the collected kernels, also when it is a kernel; no run
    binds it; and a run on the module is, in all it does and leaves
    behind, the run on the module without its private names. *)
Theorem private_names_are_not_kernels
        (w : World) (prog : string) (argv : list string) :
  (forall m r,
      (forall name, In (name, r) (members m) -> String.prefix "_" name = true) ->
      ~ In r (collect_kernels m)) /\
  (forall a m r args,
      set_semantics w ->
      parse_args prog argv = Parsed a ->
      w_load w (inputfile a) = Ok m ->
      (forall name, In (name, r) (members m) -> String.prefix "_" name = true) ->
      ~ In (EvBind r args) (calls (main w prog argv))) /\
  main (hide_private w) prog argv = main w prog argv.
Proof.
  assert (Hpriv : forall m r,
             (forall name, In (name, r) (members m) -> String.prefix "_" name = true) ->
             ~ In r (collect_kernels m)).
  { intros m r Hall Hin. apply collect_kernels_public in Hin.
    destruct Hin as (name & Hm & Hpub & _). rewrite (Hall name Hm) in Hpub.
    discriminate. }
  split; [exact Hpriv|]. split; [|apply main_hide_private].
  intros a m r args Hs Hp Hl Hall Hin.
  apply (Hpriv m r Hall), (sorted_kernels_In w m r Hs).
  exact (main_binds _ _ _ _ _ _ _ Hp Hl Hin).
Qed.

(** The kernel bound to [_hidden] in the sample module. *)
Lemma private_names_are_not_kernels_witness :
  ~ In 3 (collect_kernels demo_module) /\
  ~ In (EvBind 3 []) (calls (main demo_world "helion_wrapper.py" demo_argv)) /\
  main (hide_private demo_world) "helion_wrapper.py" demo_argv =
  main demo_world "helion_wrapper.py" demo_argv.
Proof.
  destruct (private_names_are_not_kernels demo_world "helion_wrapper.py" demo_argv)
    as (H1 & H2 & H3).
  assert (Hall : forall name, In (name, 3) (members demo_module) ->
                              String.prefix "_" name = true).
  { simpl. intros name [E|[E|[E|[E|[E|[]]]]]]; inversion E; reflexivity. }
  split; [exact (H1 demo_module 3 Hall)|].
  split; [|exact H3].
  exact (H2 (mkArgs "in.py" "out.txt") demo_module 3 []
            (calm_world_in_order demo_module) eq_refl eq_refl Hall).
Defined.

(** ** Without [torch] *)

Lemma report_not_empty (e : Exn) : concat_all (stderr_lines e) <> "".
Proof.
  unfold stderr_lines, messages.
  destruct (exn_args e) as [|m ms]; simpl.
  - destruct (exn_str e); discriminate.
  - destruct m; discriminate.
Qed.

(** C8. Where [torch] cannot be imported, [_make_fake_args] would return
    the empty tuple for every kernel, but no run gets that far.  Helion
    requires torch, so [import helion] raises before the output file is
    opened and before any kernel is looked at: the run ends in the
    handler with status 255 and the import error on the error stream, the
    output file is not created, and no kernel is bound, so none is
    skipped. *)
Theorem torch_missing_ends_at_the_import
        (w : World) (prog : string) (argv : list string) (a : Args) :
  helion_needs_torch w ->
  w_torch_ok w = false ->
  parse_args prog argv = Parsed a ->
  (forall r k, _make_fake_args w r k = Ok []) /\
  exit_status (main w prog argv) = 255%Z /\
  out_file (main w prog argv) = w_out_before w /\
  (forall ev, In ev (calls (main w prog argv)) ->
              ev = EvLoad (inputfile a) \/ ev = EvImportHelion) /\
  (w_stderr_fail w = None -> err_stream (main w prog argv) <> "").
Proof.
  intros Hn Ht Hp. destruct (Hn Ht) as [e He].
  split; [intros r k; unfold _make_fake_args; now rewrite Ht|].
  rewrite (main_parsed _ _ _ _ Hp), main_try_steps. cbv zeta. rewrite He.
  destruct (w_load w (inputfile a)) as [m|e0]; unfold calls, err_stream, report; simpl.
  - repeat split.
    + intros ev [<-|[<-|[]]]; [now left | now right].
    + intros Hf. rewrite Hf. apply report_not_empty.
  - repeat split.
    + intros ev [<-|[]]. now left.
    + intros Hf. rewrite Hf. apply report_not_empty.
Qed.

(** The sample module in a world without [torch]. *)
Lemma torch_missing_ends_at_the_import_witness :
  exit_status (main (torch_missing_world demo_module) "helion_wrapper.py" demo_argv)
    = 255%Z /\
  out_file (main (torch_missing_world demo_module) "helion_wrapper.py" demo_argv)
    = None.
Proof.
  destruct (torch_missing_ends_at_the_import (torch_missing_world demo_module)
              "helion_wrapper.py" demo_argv (mkArgs "in.py" "out.txt")
              (fun _ => ex_intro _ no_torch eq_refl) eq_refl eq_refl)
    as (_ & H1 & H2 & _).
  split; [exact H1 | exact H2].
Defined.

(** ** The command line *)

(** Without a token that selects [--inputfile], the parser ends with no
    value for it. *)
Lemma parse_known_no_inputfile (n : nat) :
  forall toks outp extras,
    List.length toks <= n ->
    supplies opt_inputfile toks = false ->
    match parse_known toks None outp extras with
    | PDone (Some _) _ _ => False
    | _ => True
    end.
Proof.
  induction n as [|n IH]; intros toks outp extras Hlen Hs.
  - destruct toks; [exact I | simpl in Hlen; lia].
  - destruct toks as [|t rest]; [exact I|].
    simpl in Hlen. unfold supplies in Hs. simpl existsb in Hs.
    apply orb_false_iff in Hs. destruct Hs as [Ht Hrest].
    simpl parse_known. destruct (is_help t); [exact I|].
    destruct (split_eq t) as [name explicit]. simpl in Ht. rewrite Ht.
    destruct (names_option opt_outputfile name).
    + destruct explicit as [v|].
      * apply IH; [lia | exact Hrest].
      * destruct rest as [|v rest']; [exact I|].
        destruct (starts_dash v); [exact I|].
        simpl in Hrest. apply orb_false_iff in Hrest.
        apply IH; [simpl in Hlen; lia | apply Hrest].
    + apply IH; [lia | exact Hrest].
Qed.

Lemma parse_known_no_outputfile (n : nat) :
  forall toks inp extras,
    List.length toks <= n ->
    supplies opt_outputfile toks = false ->
    match parse_known toks inp None extras with
    | PDone _ (Some _) _ => False
    | _ => True
    end.
Proof.
  induction n as [|n IH]; intros toks inp extras Hlen Hs.
  - destruct toks; [exact I | simpl in Hlen; lia].
  - destruct toks as [|t rest]; [exact I|].
    simpl in Hlen. unfold supplies in Hs. simpl existsb in Hs.
    apply orb_false_iff in Hs. destruct Hs as [Ht Hrest].
    simpl parse_known. destruct (is_help t); [exact I|].
    destruct (split_eq t) as [name explicit]. simpl in Ht. rewrite Ht.
    destruct (names_option opt_inputfile name).
    + destruct explicit as [v|].
      * apply IH; [lia | exact Hrest].
      * destruct rest as [|v rest']; [exact I|].
        destruct (starts_dash v); [exact I|].
        simpl in Hrest. apply orb_false_iff in Hrest.
        apply IH; [simpl in Hlen; lia | apply Hrest].
    + apply IH; [lia | exact Hrest].
Qed.

(** Help is printed only for a help token. *)
Lemma parse_known_no_help (n : nat) :
  forall toks inp outp extras,
    List.length toks <= n ->
    existsb is_help toks = false ->
    parse_known toks inp outp extras <> PHelp.
Proof.
  induction n as [|n IH]; intros toks inp outp extras Hlen Hs.
  - destruct toks; [discriminate | simpl in Hlen; lia].
  - destruct toks as [|t rest]; [discriminate|].
    simpl in Hlen. simpl existsb in Hs.
    apply orb_false_iff in Hs. destruct Hs as [Ht Hrest].
    simpl parse_known. rewrite Ht.
    destruct (split_eq t) as [name explicit].
    assert (Hval : forall i' o',
               match rest with
               | [] => True
               | v :: rest' => parse_known rest' (i' v) (o' v) extras <> PHelp
               end).
    { intros i' o'. destruct rest as [|v rest']; [exact I|].
      simpl in Hrest. apply orb_false_iff in Hrest.
      apply IH; [simpl in Hlen; lia | apply Hrest]. }
    destruct (names_option opt_inputfile name).
    + destruct explicit as [v|]; [apply IH; [lia | exact Hrest]|].
      specialize (Hval (fun v => Some v) (fun _ => outp)).
      destruct rest as [|v rest']; [discriminate|].
      destruct (starts_dash v); [discriminate | exact Hval].
    + destruct (names_option opt_outputfile name).
      * destruct explicit as [v|]; [apply IH; [lia | exact Hrest]|].
        specialize (Hval (fun _ => inp) (fun v => Some v)).
        destruct rest as [|v rest']; [discriminate|].
        destruct (starts_dash v); [discriminate | exact Hval].
      * apply IH; [lia | exact Hrest].
Qed.

(** A command line that lacks one of the two options never parses. *)
Lemma parse_args_missing (prog : string) (argv : list string) :
  supplies opt_inputfile argv = false \/ supplies opt_outputfile argv = false ->
  (parse_args prog argv = ParseExit 0 "" /\ existsb is_help argv = true) \/
  exists msg, parse_args prog argv = parser_error prog msg.
Proof.
  intros H. unfold parse_args.
  assert (Hi : supplies opt_inputfile argv = false ->
               match parse_known argv None None [] with
               | PDone (Some _) _ _ => False
               | _ => True
               end)
    by (apply (parse_known_no_inputfile (List.length argv)); lia).
  assert (Ho : supplies opt_outputfile argv = false ->
               match parse_known argv None None [] with
               | PDone _ (Some _) _ => False
               | _ => True
               end)
    by (apply (parse_known_no_outputfile (List.length argv)); lia).
  pose proof (parse_known_no_help (List.length argv) argv None None []
                (le_n _)) as Hh.
  destruct (parse_known argv None None []) as [|msg|inp outp extras].
  - left. split; [reflexivity|].
    destruct (existsb is_help argv); [reflexivity|].
    exfalso. now apply Hh.
  - right. now exists msg.
  - right. destruct inp as [i|], outp as [o|]; try (eexists; reflexivity).
    exfalso. destruct H as [H|H]; [exact (Hi H) | exact (Ho H)].
Qed.

(** C9. A command line without [--inputfile], or without [--outputfile],
    ends inside [parse_args]: the run is over before the [try] block is
    entered, so nothing is loaded, the output file is not touched, the
    status is not 255, and, unless help was asked for, the status is 2 and
    the error stream holds the parser's usage line and its
    [prog: error: ...] line rather than the messages of an exception. *)
Theorem missing_flag_stops_in_the_parser
        (w : World) (prog : string) (argv : list string) :
  supplies opt_inputfile argv = false \/ supplies opt_outputfile argv = false ->
  exists status err,
    parse_args prog argv = ParseExit status err /\
    main w prog argv = mkOutcome status (mkState (w_out_before w) err 0 []) /\
    status <> 255%Z /\
    (existsb is_help argv = false ->
     status = 2%Z /\
     exists msg, err = (usage prog ++ prog ++ ": error: " ++ msg ++ nl)%string).
Proof.
  intros H.
  destruct (parse_args_missing prog argv H) as [[Hp Hh] | [msg Hp]].
  - exists 0%Z, "". unfold main. rewrite Hp.
    repeat split; try discriminate.
    all: rewrite Hh in *; discriminate.
  - exists 2%Z, (usage prog ++ prog ++ ": error: " ++ msg ++ nl)%string.
    unfold main. rewrite Hp. unfold parser_error.
    repeat split; try discriminate. now exists msg.
Qed.

(** A command line with [--inputfile] only. *)
Lemma missing_flag_stops_in_the_parser_witness :
  exit_status (main demo_world "helion_wrapper.py" ["--inputfile"; "in.py"]) = 2%Z /\
  calls (main demo_world "helion_wrapper.py" ["--inputfile"; "in.py"]) = [] /\
  out_file (main demo_world "helion_wrapper.py" ["--inputfile"; "in.py"]) = None.
Proof.
  destruct (missing_flag_stops_in_the_parser demo_world "helion_wrapper.py"
              ["--inputfile"; "in.py"] (or_intror eq_refl))
    as (status & err & _ & Hm & _ & Hh).
  rewrite Hm. destruct (Hh eq_refl) as [Hs _].
  split; [exact Hs | split; reflexivity].
Defined.

(** ** Failing writes *)

Lemma emit_app (w : World) (m : LoadedModule) (ks1 ks2 : list Ref) :
  forall st,
    emit_kernels w m (ks1 ++ ks2) st =
    match emit_kernels w m ks1 st with
    | (Ok _, st1) => emit_kernels w m ks2 st1
    | (Raise e, st1) => (Raise e, st1)
    end.
Proof.
  induction ks1 as [|r ks1 IH]; intros st; [reflexivity|].
  change ((r :: ks1) ++ ks2) with (r :: (ks1 ++ ks2)).
  rewrite !emit_cons. cbv zeta.
  destruct (kernel_code w m r) as [code|e]; [|apply IH].
  destruct (w_write_err w _); [reflexivity|].
  destruct (w_write_err w _); [reflexivity|].
  apply IH.
Qed.

(** A write that fails right after kernel [r] went through its sequence
    ends the loop with the write's exception, whatever kernels follow. *)
Lemma emit_write_failure (w : World) (m : LoadedModule) (r : Ref)
      (ks : list Ref) (st : State) (code : string) (e : Exn) :
  kernel_code w m r = Ok code ->
  (w_write_err w (st_nwrites st) = Some e \/
   (w_write_err w (st_nwrites st) = None /\
    w_write_err w (S (st_nwrites st)) = Some e)) ->
  exists args st',
    emit_kernels w m (r :: ks) st = (Raise e, st') /\
    st_log st' = st_log st ++ [EvBind r args] /\
    st_err st' = st_err st.
Proof.
  intros Hc Hw. rewrite emit_cons. cbv zeta. rewrite Hc.
  destruct (per_kernel_log_ok w m r st code Hc) as [args E].
  rewrite E. change (st_nwrites (add_event (EvBind r args) st)) with (st_nwrites st).
  exists args.
  destruct Hw as [Hw | [Hw1 Hw2]].
  - rewrite Hw. eexists. repeat split.
  - rewrite Hw1, Hw2. eexists. repeat split.
Qed.

(** C10. The loop has gone through the kernels [ks1]; kernel [r] comes
    next, its sequence succeeds, and writing its text, or the separator
    after it, raises.  The exception leaves the loop, the run ends with
    status 255, and the [bind] of [r] is the last call the run makes: none
    of the kernels [ks2] that follow is processed.  When the file then
    closes without error, it is this exception the handler reports. *)
Theorem write_failure_ends_the_run
        (w : World) (prog : string) (argv : list string) (a : Args)
        (m : LoadedModule) (ks1 ks2 : list Ref) (r : Ref) (st1 : State)
        (code : string) (e : Exn) :
  parse_args prog argv = Parsed a ->
  w_load w (inputfile a) = Ok m ->
  w_import_helion w = None ->
  w_open_err w (outputfile a) = None ->
  sorted_kernels w m = ks1 ++ r :: ks2 ->
  emit_kernels w m ks1 (opened_state w a) = (Ok tt, st1) ->
  kernel_code w m r = Ok code ->
  (w_write_err w (st_nwrites st1) = Some e \/
   (w_write_err w (st_nwrites st1) = None /\
    w_write_err w (S (st_nwrites st1)) = Some e)) ->
  fst (emit_kernels w m (sorted_kernels w m) (opened_state w a)) = Raise e /\
  exit_status (main w prog argv) = 255%Z /\
  (exists args, calls (main w prog argv) = st_log st1 ++ [EvBind r args]) /\
  (w_close_err w = None ->
   w_stderr_fail w = None ->
   err_stream (main w prog argv) = concat_all (stderr_lines e)).
Proof.
  intros Hp Hl Hi Ho Hks H1 Hc Hw.
  destruct (emit_write_failure w m r ks2 st1 code e Hc Hw)
    as (args & st' & He & Hlog & Herr).
  assert (Hloop : emit_kernels w m (sorted_kernels w m) (opened_state w a) =
                  (Raise e, st')).
  { rewrite Hks, emit_app, H1. exact He. }
  assert (Herr1 : st_err st' = "").
  { rewrite Herr.
    pose proof (emit_err w m ks1 (opened_state w a)) as E.
    rewrite H1 in E. exact E. }
  rewrite (main_parsed _ _ _ _ Hp), (main_try_loop _ _ _ Hl Hi Ho), Hloop.
  cbv zeta. simpl snd.
  split; [reflexivity|].
  destruct (w_close_err w) as [e'|]; simpl.
  - split; [reflexivity|]. split; [now exists args | discriminate].
  - split; [reflexivity|]. split; [now exists args|].
    intros _ Hf. unfold err_stream, report. simpl. now rewrite Hf, Herr1.
Qed.

(** The first write of the run fails: [mul] was bound, [add] never is. *)
Lemma write_failure_ends_the_run_witness :
  exit_status (main (failing_write_world demo_module 0) "helion_wrapper.py" demo_argv)
    = 255%Z /\
  calls (main (failing_write_world demo_module 0) "helion_wrapper.py" demo_argv)
    = [EvLoad "in.py"; EvImportHelion; EvOpen "out.txt"; EvBind 2 [VTensor [1%Z]]].
Proof.
  destruct (write_failure_ends_the_run (failing_write_world demo_module 0)
              "helion_wrapper.py" demo_argv (mkArgs "in.py" "out.txt") demo_module
              [] [4; 1] 2
              (opened_state (failing_write_world demo_module 0)
                            (mkArgs "in.py" "out.txt"))
              "MUL" disk_full
              eq_refl eq_refl eq_refl eq_refl eq_refl eq_refl eq_refl
              (or_introl eq_refl))
    as (_ & H & _ & _).
  split; [exact H | reflexivity].
Defined.

(** * Further properties of the wrapper *)

(** ** Kernels that share a line *)

Lemma insert_by_stable {A} (key : A -> Z) (z : Z) (x : A) (l : list A) :
  filter (fun y => (key y =? z)%Z) (insert_by key x l) =
  filter (fun y => (key y =? z)%Z) (x :: l).
Proof.
  induction l as [|y l IH]; [reflexivity|].
  simpl insert_by. destruct (key x <=? key y)%Z eqn:E; [reflexivity|].
  apply Z.leb_gt in E.
  change (filter (fun y0 => (key y0 =? z)%Z) (y :: insert_by key x l))
    with (if (key y =? z)%Z
          then y :: filter (fun y0 => (key y0 =? z)%Z) (insert_by key x l)
          else filter (fun y0 => (key y0 =? z)%Z) (insert_by key x l)).
  rewrite IH. simpl.
  destruct (key x =? z)%Z eqn:Ex, (key y =? z)%Z eqn:Ey; try reflexivity.
  apply Z.eqb_eq in Ex, Ey. lia.
Qed.

Lemma sorted_stable {A} (key : A -> Z) (z : Z) (l : list A) :
  filter (fun y => (key y =? z)%Z) (sorted key l) =
  filter (fun y => (key y =? z)%Z) l.
Proof.
  induction l as [|x l IH]; [reflexivity|].
  simpl sorted. rewrite insert_by_stable. simpl. now rewrite IH.
Qed.

(** The kernels that start on one and the same line come out of the sort
    in the order in which the set of kernels yielded them: the sort by
    line number settles nothing among them. *)
Theorem same_line_kernels_keep_set_order
        (w : World) (m : LoadedModule) (line : Z) :
  filter (fun r => (_line_no m r =? line)%Z) (sorted_kernels w m) =
  filter (fun r => (_line_no m r =? line)%Z) (w_set_iter w (collect_kernels m)).
Proof. apply sorted_stable. Qed.

(** ** The output file before the loop *)

(** The output file is opened after the module is loaded and the kernel
    library imported: when one of the two fails, the run ends with status
    255 and the output path is as it was before the run, neither created
    nor emptied. *)
Theorem early_failure_leaves_output_alone
        (w : World) (prog : string) (argv : list string) (a : Args) (e : Exn) :
  parse_args prog argv = Parsed a ->
  (w_load w (inputfile a) = Raise e \/
   (exists m, w_load w (inputfile a) = Ok m) /\ w_import_helion w = Some e) ->
  exit_status (main w prog argv) = 255%Z /\
  out_file (main w prog argv) = w_out_before w /\
  forall path, ~ In (EvOpen path) (calls (main w prog argv)).
Proof.
  intros Hp H. rewrite (main_parsed _ _ _ _ Hp), main_try_steps. cbv zeta.
  destruct H as [Hl | [[m Hl] Hi]]; rewrite Hl; [|rewrite Hi].
  - repeat split. intros path [E|[]]. discriminate.
  - repeat split. intros path [E|[E|[]]]; discriminate.
Qed.

(** The output path holds an older file; the input path does not exist. *)
Lemma early_failure_leaves_output_alone_witness :
  out_file (main (mkWorld (demo_load demo_module) None true (fun _ _ => None)
                          set_in_order (Some "old") (fun _ => None)
                          (fun _ => None) None None)
                 "helion_wrapper.py"
                 ["--inputfile"; "nope.py"; "--outputfile"; "out.txt"])
  = Some "old".
Proof.
  refine (proj1 (proj2 (early_failure_leaves_output_alone
            (mkWorld (demo_load demo_module) None true (fun _ _ => None)
                     set_in_order (Some "old") (fun _ => None)
                     (fun _ => None) None None)
            "helion_wrapper.py"
            ["--inputfile"; "nope.py"; "--outputfile"; "out.txt"]
            (mkArgs "nope.py" "out.txt") no_such_file eq_refl _))).
  left. reflexivity.
Defined.

(** ** The calls of a run *)

(** A run goes through its collaborators in one fixed order.  The user
    file is executed first; the kernel library is imported only once the
    file has run, and not at all when it failed; the output file is opened
    only after both; and kernels are bound only once the file is open, in
    the order of the sorted list, each at most once and with the
    arguments [_make_fake_args] built for it. *)
Theorem calls_follow_the_phases
        (w : World) (prog : string) (argv : list string) (a : Args) :
  parse_args prog argv = Parsed a ->
  match w_load w (inputfile a) with
  | Raise _ => calls (main w prog argv) = [EvLoad (inputfile a)]
  | Ok m =>
      match w_import_helion w with
      | Some _ =>
          calls (main w prog argv) = [EvLoad (inputfile a); EvImportHelion]
      | None =>
          match w_open_err w (outputfile a) with
          | Some _ =>
              calls (main w prog argv) =
              [EvLoad (inputfile a); EvImportHelion; EvOpen (outputfile a)]
          | None =>
              exists n,
                calls (main w prog argv) =
                [EvLoad (inputfile a); EvImportHelion; EvOpen (outputfile a)]
                  ++ firstn n (bind_events w m (sorted_kernels w m))
          end
      end
  end.
Proof.
  intros Hp. rewrite (main_parsed _ _ _ _ Hp), main_try_steps. cbv zeta.
  destruct (w_load w (inputfile a)) as [m|e]; [|reflexivity].
  destruct (w_import_helion w); [reflexivity|].
  unfold with_open.
  destruct (w_open_err w (outputfile a)); [reflexivity|].
  fold (opened_state w a).
  destruct (emit_log_prefix w m (sorted_kernels w m) (opened_state w a)) as [n Hn].
  exists n.
  destruct (emit_kernels w m (sorted_kernels w m) (opened_state w a))
    as [[[]|e] st]; simpl in Hn;
    destruct (w_close_err w); unfold calls; simpl; exact Hn.
Qed.

(** The run whose first write fails: [mul] is bound, and nothing after it. *)
Lemma calls_follow_the_phases_witness :
  exists n,
    calls (main (failing_write_world demo_module 0) "helion_wrapper.py" demo_argv) =
    [EvLoad "in.py"; EvImportHelion; EvOpen "out.txt"]
      ++ firstn n [EvBind 2 [VTensor [1%Z]]; EvBind 4 [];
                   EvBind 1 [VTensor [1%Z]; VTensor [1%Z]]].
Proof.
  exact (calls_follow_the_phases (failing_write_world demo_module 0)
           "helion_wrapper.py" demo_argv (mkArgs "in.py" "out.txt") eq_refl).
Defined.

(** In a run that ends with status 0, every kernel of the sorted list
    whose arguments could be synthesized was bound, exactly once, in the
    order of the list and with those arguments, also the kernels that
    were then skipped; a kernel whose argument synthesis raised was not
    bound at all. *)
Theorem normal_run_binds_every_kernel_once
        (w : World) (prog : string) (argv : list string) (a : Args)
        (m : LoadedModule) :
  parse_args prog argv = Parsed a ->
  w_load w (inputfile a) = Ok m ->
  exit_status (main w prog argv) = 0%Z ->
  calls (main w prog argv) =
  [EvLoad (inputfile a); EvImportHelion; EvOpen (outputfile a)]
    ++ flat_map (fun r => match heap m r with
                          | ObjKernel k =>
                              match _make_fake_args w r k with
                              | Ok args => [EvBind r args]
                              | Raise _ => []
                              end
                          | ObjOther => []
                          end) (sorted_kernels w m).
Proof.
  intros Hp Hl H0.
  destruct (main_exit_0 _ _ _ _ Hp H0) as (st & Ht & Hf).
  apply (main_try_ok_loop _ _ _ _ Hl), emit_log_ok in Ht.
  unfold calls. rewrite Hf, Ht. reflexivity.
Qed.

(** The sample run: [bad], which does not bind, was tried all the same. *)
Lemma normal_run_binds_every_kernel_once_witness :
  calls (main demo_world "helion_wrapper.py" demo_argv) =
  [EvLoad "in.py"; EvImportHelion; EvOpen "out.txt";
   EvBind 2 [VTensor [1%Z]]; EvBind 4 [];
   EvBind 1 [VTensor [1%Z]; VTensor [1%Z]]].
Proof.
  exact (normal_run_binds_every_kernel_once demo_world "helion_wrapper.py"
           demo_argv (mkArgs "in.py" "out.txt") demo_module
           eq_refl eq_refl eq_refl).
Defined.

(** ** Names do not matter *)

Lemma insert_by_ext {A} (key key' : A -> Z) (x : A) (l : list A) :
  (forall y, key y = key' y) -> insert_by key x l = insert_by key' x l.
Proof.
  intros H. induction l as [|y l IH]; [reflexivity|].
  simpl. now rewrite IH, !H.
Qed.

Lemma sorted_ext {A} (key key' : A -> Z) (l : list A) :
  (forall y, key y = key' y) -> sorted key l = sorted key' l.
Proof.
  intros H. induction l as [|x l IH]; [reflexivity|].
  simpl. now rewrite IH, (insert_by_ext key key' _ _ H).
Qed.

Lemma line_no_ext (m1 m2 : LoadedModule) :
  (forall r, heap m1 r = heap m2 r) ->
  forall r, _line_no m1 r = _line_no m2 r.
Proof. intros H r. unfold _line_no. now rewrite H. Qed.

(** The sorted list is a matter of which kernels were collected, not of
    how, when they start on different lines. *)
Lemma sorted_kernels_same_set (w : World) (m1 m2 : LoadedModule) :
  set_semantics w ->
  (forall r, heap m1 r = heap m2 r) ->
  (forall r, In r (collect_kernels m1) <-> In r (collect_kernels m2)) ->
  (forall r1 r2, In r1 (collect_kernels m1) -> In r2 (collect_kernels m1) ->
                 _line_no m1 r1 = _line_no m1 r2 -> r1 = r2) ->
  sorted_kernels w m1 = sorted_kernels w m2.
Proof.
  intros Hs Hh Hin Hinj.
  apply (ascending_unique (_line_no m1)).
  - intros x y Hx Hy. apply Hinj; now apply (sorted_kernels_In w m1 _ Hs).
  - now apply sorted_kernels_NoDup.
  - now apply sorted_kernels_NoDup.
  - intros x. rewrite (sorted_kernels_In w m1 x Hs), (sorted_kernels_In w m2 x Hs).
    apply Hin.
  - apply sorted_sorted.
  - unfold sorted_kernels.
    rewrite <- (sorted_ext (_line_no m1) (_line_no m2) _ (line_no_ext m1 m2 Hh)).
    apply sorted_sorted.
Qed.

(** Two user files that define the same kernel objects, on pairwise
    different lines, give the same run, whatever public names the kernels
    go by, in whatever order the names are listed, however many names one
    kernel has, and whatever else the files define: the wrapper looks at
    the objects, and emits each kernel once. *)
Theorem kernels_count_not_their_names
        (w : World) (m1 m2 : LoadedModule) (prog : string) (argv : list string) :
  set_semantics w ->
  (forall r, heap m1 r = heap m2 r) ->
  (forall r, In r (collect_kernels m1) <-> In r (collect_kernels m2)) ->
  (forall r1 r2, In r1 (collect_kernels m1) -> In r2 (collect_kernels m1) ->
                 _line_no m1 r1 = _line_no m1 r2 -> r1 = r2) ->
  main (with_module w m1) prog argv = main (with_module w m2) prog argv.
Proof.
  intros Hs Hh Hin Hinj. unfold main.
  destruct (parse_args prog argv) as [a|status err]; [|reflexivity].
  change (initial_state (with_module w m2)) with (initial_state (with_module w m1)).
  assert (E : main_try (with_module w m1) a (initial_state (with_module w m1)) =
              main_try (with_module w m2) a (initial_state (with_module w m1))).
  { rewrite !main_try_steps. cbv zeta. simpl w_load. simpl w_import_helion.
    destruct (w_import_helion w); [reflexivity|].
    unfold with_open. simpl w_open_err. simpl w_close_err.
    change (sorted_kernels (with_module w m1) m1) with (sorted_kernels w m1).
    change (sorted_kernels (with_module w m2) m2) with (sorted_kernels w m2).
    rewrite (sorted_kernels_same_set w m1 m2 Hs Hh Hin Hinj).
    rewrite (emit_ext (with_module w m1) (with_module w m2) m1 m2 eq_refl
               (fun _ _ => eq_refl) (fun _ => eq_refl) Hh).
    reflexivity. }
  rewrite E. reflexivity.
Qed.

(** The sample module, and the same objects under other names. *)
Lemma kernels_count_not_their_names_witness :
  main (with_module demo_world demo_module) "helion_wrapper.py" demo_argv =
  main (with_module demo_world renamed_module) "helion_wrapper.py" demo_argv.
Proof.
  apply (kernels_count_not_their_names demo_world demo_module renamed_module).
  - intros l. apply set_in_order_ok.
  - intros r. reflexivity.
  - intros r. simpl. tauto.
  - simpl. intros r1 r2 [<-|[<-|[<-|[]]]] [<-|[<-|[<-|[]]]]; vm_compute; congruence.
Defined.

(** ** The example file *)

Lemma singleton_set (l : list Ref) (r : Ref) :
  NoDup l -> (forall x, In x l <-> In x [r]) -> l = [r].
Proof.
  intros Hn Hin. destruct l as [|x l].
  - exfalso. apply (proj2 (Hin r)). now left.
  - assert (Hx : x = r).
    { destruct (proj1 (Hin x) (or_introl eq_refl)) as [E|[]]. now symmetry. }
    subst x. f_equal. destruct l as [|y l]; [reflexivity|].
    exfalso. inversion Hn as [|? ? Hnot _]; subst.
    destruct (proj1 (Hin y) (or_intror (or_introl eq_refl))) as [E|[]].
    apply Hnot. left. now symmetry.
Qed.

(** A run on [examples/helion/default.py], with [torch] at hand and no
    failure of the files: of all the names of the module the wrapper
    binds [add] alone, once, to two one-element tensors; the output file
    is the code the library generates for that binding followed by two
    line feeds, or empty when the library raises; the status is 0 in
    both cases. *)
Theorem default_example_run
        (w : World) (prog : string) (argv : list string) (a : Args)
        (lib : list PyVal -> Result Bound) :
  set_semantics w ->
  parse_args prog argv = Parsed a ->
  w_load w (inputfile a) = Ok (default_example lib) ->
  w_import_helion w = None ->
  w_torch_ok w = true ->
  (forall r i, w_torch_empty w r i = None) ->
  w_open_err w (outputfile a) = None ->
  (forall n, w_write_err w n = None) ->
  w_close_err w = None ->
  exit_status (main w prog argv) = 0%Z /\
  calls (main w prog argv) =
    [EvLoad (inputfile a); EvImportHelion; EvOpen (outputfile a);
     EvBind 1 [VTensor [1%Z]; VTensor [1%Z]]] /\
  out_file (main w prog argv) =
    Some (match default_add_code lib with
          | Ok code => (code ++ nl ++ nl)%string
          | Raise _ => ""
          end) /\
  err_stream (main w prog argv) = "".
Proof.
  intros Hs Hp Hl Hi Ht He Ho Hw Hc.
  assert (Hks : sorted_kernels w (default_example lib) = [1]).
  { unfold sorted_kernels.
    rewrite (singleton_set (w_set_iter w (collect_kernels (default_example lib))) 1
               (proj1 (Hs _)) (proj2 (Hs _))).
    reflexivity. }
  assert (Hargs : _make_fake_args w 1 (default_add lib) =
                  Ok [VTensor [1%Z]; VTensor [1%Z]]).
  { unfold _make_fake_args. rewrite Ht. simpl. unfold fake_arg. simpl.
    now rewrite !He. }
  assert (Hcode : kernel_code w (default_example lib) 1 = default_add_code lib).
  { unfold kernel_code.
    change (heap (default_example lib) 1) with (ObjKernel (default_add lib)).
    cbv beta iota delta [as_kernel]. now rewrite Hargs. }
  assert (Hev : bind_events w (default_example lib) [1] =
                [EvBind 1 [VTensor [1%Z]; VTensor [1%Z]]]).
  { change (bind_events w (default_example lib) [1])
      with (match _make_fake_args w 1 (default_add lib) with
            | Ok args => [EvBind 1 args]
            | Raise _ => []
            end ++ []).
    now rewrite Hargs. }
  destruct (per_kernel_files w (default_example lib) 1 (opened_state w a))
    as (A & B & C).
  assert (L : st_log (snd (per_kernel w (default_example lib) 1 (opened_state w a))) =
              st_log (opened_state w a) ++ [EvBind 1 [VTensor [1%Z]; VTensor [1%Z]]]).
  { rewrite per_kernel_log_exact. f_equal. exact Hev. }
  rewrite (main_parsed _ _ _ _ Hp), (main_try_loop _ _ _ Hl Hi Ho), Hc, Hks.
  rewrite emit_cons. cbv zeta. rewrite Hcode.
  destruct (default_add_code lib) as [code|e].
  - rewrite !Hw. unfold calls, out_file, err_stream. simpl.
    rewrite L, <- A, <- B. repeat split.
  - unfold calls, out_file, err_stream. simpl.
    rewrite L, <- A, <- B. repeat split.
Qed.

(** The library generates the text [ADD] for the example. *)
Lemma default_example_run_witness :
  out_file (main (calm_world (default_example (fun _ => Ok (bound_of "ADD")))
                             set_in_order)
                 "helion_wrapper.py" demo_argv)
  = Some ("ADD" ++ nl ++ nl)%string.
Proof.
  refine (proj1 (proj2 (proj2
            (default_example_run
               (calm_world (default_example (fun _ => Ok (bound_of "ADD"))) set_in_order)
               "helion_wrapper.py" demo_argv (mkArgs "in.py" "out.txt")
               (fun _ => Ok (bound_of "ADD"))
               (calm_world_in_order _) eq_refl eq_refl eq_refl eq_refl
               (fun _ _ => eq_refl) eq_refl (fun _ => eq_refl) eq_refl)))).
Defined.
